(** * jtkj-interface: the UART transport, handshake, heartbeat and field schema

    A shallow embedding of [lib/uart.js] (send queue, sender tick, heartbeat,
    challenge-response) and of the two [config.js] schema registries
    ([interface.dataTypes], [gateway.dataTypes]), with the properties of the
    specification proved about them. *)

From Stdlib Require Import ZArith List String Ascii SpecFloat Lia.
From stdpp Require Import base option list numbers.

Local Open Scope Z_scope.

(** ** The JavaScript runtime the sources rely on *)

Module JS.

(** A JavaScript string is a sequence of UTF-16 code units. *)
Abbreviation jsstring := (list Z) (only parsing).

(** The code units of an ASCII literal of the source. *)
Definition js (s : string) : jsstring :=
  map (fun a => Z.of_N (N_of_ascii a)) (list_ascii_of_string s).

Definition jseqb (a b : jsstring) : bool := bool_decide (a = b).

(** [StrWhiteSpaceChar] of ECMAScript: WhiteSpace and LineTerminator. *)
Definition isStrWhiteSpaceChar (c : Z) : bool :=
  (c =? 9) || (c =? 10) || (c =? 11) || (c =? 12) || (c =? 13) || (c =? 32)
  || (c =? 160) || (c =? 5760) || ((8192 <=? c) && (c <=? 8202))
  || (c =? 8232) || (c =? 8233) || (c =? 8239) || (c =? 8287)
  || (c =? 12288) || (c =? 65279).

Fixpoint dropWhile {A} (p : A -> bool) (l : list A) : list A :=
  match l with
  | [] => []
  | x :: r => if p x then dropWhile p r else l
  end.

Definition trimStart (s : jsstring) : jsstring := dropWhile isStrWhiteSpaceChar s.
Definition trimEnd (s : jsstring) : jsstring := rev (dropWhile isStrWhiteSpaceChar (rev s)).
(** [String.prototype.trim] *)
Definition trim (s : jsstring) : jsstring := trimEnd (trimStart s).

(** [String.prototype.substr(start, length)] for [start = 0]: a negative
    length counts as 0, a length past the end stops at the end. *)
Definition substr0 (s : jsstring) (len : Z) : jsstring := take (Z.to_nat len) s.

(** [String.prototype.split(sep)] for a one-code-unit separator. *)
Fixpoint split (sep : Z) (s : jsstring) : list jsstring :=
  match s with
  | [] => [[]]
  | c :: r =>
      if c =? sep then [] :: split sep r
      else match split sep r with
           | [] => [[c]]
           | w :: ws => (c :: w) :: ws
           end
  end.

(** [Array.prototype.includes] on an array of strings. *)
Definition includes (l : list jsstring) (d : jsstring) : bool := existsb (jseqb d) l.

(** *** Numbers: IEEE 754 binary64 *)

Definition jsnum := spec_float.
Definition prec : Z := 53.
Definition emax : Z := 1024.

Definition NaN : jsnum := S754_nan.
Definition Infinity : jsnum := S754_infinity false.

(** The global [isNaN] and [Number.isFinite] at a number. *)
Definition isNaN (a : jsnum) : bool :=
  match a with S754_nan => true | _ => false end.

Definition isFiniteNum (a : jsnum) : bool :=
  match a with S754_zero _ | S754_finite _ _ _ => true | _ => false end.

(** The double nearest to the integer [(-1)^neg * m], for [0 <= m]. *)
Definition ofZ (neg : bool) (m : Z) : jsnum :=
  match m with
  | Z0 => S754_zero neg
  | Zpos p => binary_round prec emax neg p 0
  | Zneg _ => NaN
  end.

(** The double nearest to the integer [z]: what a whole number of
    milliseconds ([Date.now()], a configured delay) is as a Number. *)
Definition ofInt (z : Z) : jsnum := binary_normalize prec emax z 0 false.

(** The double nearest to [(-1)^neg * m / d], for [0 <= m] and [0 < d]. *)
Definition ofRatio (neg : bool) (m d : Z) : jsnum :=
  if m =? 0 then S754_zero neg
  else let '(q, e, l) := SFdiv_core_binary prec emax m 0 d 0 in
       binary_round_aux prec emax neg q e l.

(** The double nearest to [(-1)^neg * m * 10^e10]. *)
Definition ofDecimal (neg : bool) (m e10 : Z) : jsnum :=
  if 0 <=? e10 then ofZ neg (m * 10 ^ e10) else ofRatio neg m (10 ^ (- e10)).

(** *** Digits *)

Definition digitValue (c : Z) : option Z :=
  if (48 <=? c) && (c <=? 57) then Some (c - 48)
  else if (97 <=? c) && (c <=? 122) then Some (c - 87)
  else if (65 <=? c) && (c <=? 90) then Some (c - 55)
  else None.

Definition digitIn (R c : Z) : option Z :=
  match digitValue c with
  | Some v => if v <? R then Some v else None
  | None => None
  end.

(** The longest prefix of radix-[R] digits (as digit values) and the rest. *)
Fixpoint spanDigits (R : Z) (s : jsstring) : list Z * jsstring :=
  match s with
  | [] => ([], [])
  | c :: r =>
      match digitIn R c with
      | Some v => let '(ds, rest) := spanDigits R r in (v :: ds, rest)
      | None => ([], s)
      end
  end.

Definition digitsValue (R : Z) (ds : list Z) : Z :=
  fold_left (fun acc v => acc * R + v) ds 0.

Definition stripSign (s : jsstring) : bool * jsstring :=
  match s with
  | c :: r => if c =? 45 then (true, r) else if c =? 43 then (false, r) else (false, s)
  | [] => (false, s)
  end.

(** The rest of a string that starts with [0] and one of two letters
    ([0x]/[0X], [0o]/[0O], [0b]/[0B]). *)
Definition radixPrefix (lower upper : Z) (s : jsstring) : option jsstring :=
  match s with
  | a :: b :: r => if (a =? 48) && ((b =? lower) || (b =? upper)) then Some r else None
  | _ => None
  end.

Fixpoint stripPrefix (p s : jsstring) : option jsstring :=
  match p, s with
  | [], _ => Some s
  | a :: p', b :: s' => if a =? b then stripPrefix p' s' else None
  | _ :: _, [] => None
  end.

(** *** [StrDecimalLiteral]: the longest prefix that is one, and the rest *)

(** [ExponentPart]: consumed only when complete. *)
Definition scanExponent (s : jsstring) : Z * jsstring :=
  match s with
  | c :: r =>
      if (c =? 101) || (c =? 69) then
        let '(eneg, r') := stripSign r in
        match spanDigits 10 r' with
        | ([], _) => (0, s)
        | (ds, rest) => ((if eneg then - digitsValue 10 ds else digitsValue 10 ds), rest)
        end
      else (0, s)
  | [] => (0, s)
  end.

Definition scanUnsignedDecimal (neg : bool) (s : jsstring) : option (jsnum * jsstring) :=
  match stripPrefix (js "Infinity") s with
  | Some rest => Some (S754_infinity neg, rest)
  | None =>
      let '(ip, r1) := spanDigits 10 s in
      let '(fp, r2) :=
        match r1 with
        | 46 :: r => spanDigits 10 r
        | _ => ([], r1)
        end in
      match ip, fp with
      | [], [] => None
      | _, _ =>
          let '(e, r3) := scanExponent r2 in
          Some (ofDecimal neg (digitsValue 10 (ip ++ fp)) (e - Z.of_nat (length fp)), r3)
      end
  end.

Definition scanStrDecimalLiteral (s : jsstring) : option (jsnum * jsstring) :=
  let '(neg, r) := stripSign s in scanUnsignedDecimal neg r.

(** A whole string of radix-[R] digits, at least one. *)
Definition wholeDigits (R : Z) (s : jsstring) : jsnum :=
  match spanDigits R s with
  | (d :: ds, []) => ofZ false (digitsValue R (d :: ds))
  | _ => NaN
  end.

(** [Number(s)] at a string: ECMAScript's StringToNumber. *)
Definition Number (s : jsstring) : jsnum :=
  let t := trim s in
  match t with
  | [] => S754_zero false
  | _ =>
      match radixPrefix 120 88 t, radixPrefix 111 79 t, radixPrefix 98 66 t with
      | Some r, _, _ => wholeDigits 16 r
      | _, Some r, _ => wholeDigits 8 r
      | _, _, Some r => wholeDigits 2 r
      | None, None, None =>
          match scanStrDecimalLiteral t with
          | Some (v, []) => v
          | _ => NaN
          end
      end
  end.

(** [Number.parseFloat(s)] *)
Definition parseFloat (s : jsstring) : jsnum :=
  match scanStrDecimalLiteral (trimStart s) with
  | Some (v, _) => v
  | None => NaN
  end.

(** [Number.parseInt(s, radix)]; [radix = 0] stands for an absent radix. *)
Definition parseInt (s : jsstring) (radix : Z) : jsnum :=
  let '(neg, t) := stripSign (trimStart s) in
  if negb (radix =? 0) && ((radix <? 2) || (36 <? radix)) then NaN
  else
    let strip := (radix =? 0) || (radix =? 16) in
    let R := if radix =? 0 then 10 else radix in
    let '(R, t) :=
      match radixPrefix 120 88 t with
      | Some r => if strip then (16, r) else (R, t)
      | None => (R, t)
      end in
    match spanDigits R t with
    | ([], _) => NaN
    | (ds, _) => ofZ neg (digitsValue R ds)
    end.

End JS.

Import JS.

(** ** Typed values and promises *)

(** The values a parse function resolves with. *)
#[warnings="-register-all"]
Inductive value :=
| VNum (a : jsnum)
| VStr (s : jsstring)
| VBool (b : bool)
| VArr (l : list value).

(** [Number.isFinite(v)]: false at everything that is not a number. *)
Definition Number_isFinite (v : value) : bool :=
  match v with VNum a => isFiniteNum a | _ => false end.

(** [String(a)] at the numbers that are not finite (the only ones the
    registry converts to text). *)
Definition nonFiniteToString (a : jsnum) : jsstring :=
  match a with
  | S754_nan => js "NaN"
  | S754_infinity false => js "Infinity"
  | S754_infinity true => js "-Infinity"
  | _ => []
  end.

(** The state of a promise. The executor of [new Promise] runs at once;
    [resolve] and [reject] settle a pending promise and do nothing to a
    settled one. *)
Inductive settled :=
| Pending
| Fulfilled (v : value)
| Rejected (reason : jsstring).

Definition stmt := settled -> settled.

Definition resolve (v : value) : stmt :=
  fun p => match p with Pending => Fulfilled v | _ => p end.
Definition reject (reason : jsstring) : stmt :=
  fun p => match p with Pending => Rejected reason | _ => p end.
Definition If (c : bool) (s : stmt) : stmt := fun p => if c then s p else p.
Definition IfElse (c : bool) (s1 s2 : stmt) : stmt := fun p => if c then s1 p else s2 p.
Definition newPromise (body : stmt) : settled := body Pending.

Declare Scope stmt_scope.
Delimit Scope stmt_scope with stmt.
Notation "s1 ;; s2" := (fun p : settled => s2 (s1 p))
  (at level 100, s2 at level 200, right associativity) : stmt_scope.

(** A field descriptor of a schema registry. *)
Record descriptor := {
  shortName : jsstring;
  nameInDB : jsstring;
  topics : list jsstring;
  forceSend : bool;
  fun_ : jsstring -> settled
}.

(** ** config.js of the interface: [interface.dataTypes] *)

Module Config.

(** The parse function shared, up to its message, by the numeric fields:
    [let a = Number(d); if (isNaN(a) || d == '') reject(..); resolve(a);] *)
Definition numberField (what : string) (d : jsstring) : settled :=
  let a := Number d in
  newPromise (
    If (isNaN a || jseqb d []) (reject (js ("Error: Non-numeric " ++ what ++ ": ") ++ d)) ;;
    resolve (VNum a))%stmt.

Definition time_fun : jsstring -> settled := numberField "timestamp".

Definition id_fun (d : jsstring) : settled :=
  newPromise (
    IfElse (negb (isNaN (Number (js "0x" ++ d))) && (Z.of_nat (length d) <=? 4) && negb (jseqb d []))
      (resolve (VStr d))
      (reject (js "Error: SensorTag ID has to be 4 hex digits: " ++ d))).

Definition ping_fun (d : jsstring) : settled :=
  newPromise (resolve (VStr (js "pong"))).

Definition session_fun (d : jsstring) : settled :=
  newPromise (
    IfElse (includes [js "start"; js "end"] d)
      (resolve (VBool (jseqb d (js "start"))))
      (reject (js "Error: Session instruction not recognized: " ++ d))).

Definition EAT_fun (d : jsstring) : settled :=
  let a := Number d in
  newPromise (
    If (isNaN a || jseqb d []) (reject (js "Error: Non-numeric EAT increment: " ++ d)) ;;
    If (negb (isFiniteNum a))
       (reject (js "Error: Tamagotchi cannot EAT the amount: " ++ nonFiniteToString a)) ;;
    resolve (VArr [VNum a; VNum (S754_zero false); VNum (S754_zero false)]))%stmt.

Definition EXERCISE_fun (d : jsstring) : settled :=
  let a := Number d in
  newPromise (
    If (isNaN a || jseqb d []) (reject (js "Error: Non-numeric EXERCISE increment: " ++ d)) ;;
    If (negb (isFiniteNum a))
       (reject (js "Error: Tamagotchi cannot EXERCISE the amount: " ++ nonFiniteToString a)) ;;
    resolve (VArr [VNum (S754_zero false); VNum a; VNum (S754_zero false)]))%stmt.

Definition PET_fun (d : jsstring) : settled :=
  let a := Number d in
  newPromise (
    If (isNaN a || jseqb d []) (reject (js "Error: Non-numeric PET increment: " ++ d)) ;;
    If (negb (isFiniteNum a))
       (reject (js "Error: Tamagotchi cannot be PET the amount: " ++ nonFiniteToString a)) ;;
    resolve (VArr [VNum (S754_zero false); VNum (S754_zero false); VNum a]))%stmt.

(** The third guard tests [Number.isFinite(a)] of the array [a] itself, for
    each element [k] of it. *)
Definition ACTIVATE_fun (d : jsstring) : settled :=
  let a := map Number (split 59 d) in
  newPromise (
    If (negb (Z.of_nat (length a) =? 3)) (reject (js "Error: ACTIVATE needs three arguments.")) ;;
    If (existsb isNaN a || jseqb d []) (reject (js "Error: Non-numeric ACTIVATE increment: " ++ d)) ;;
    If (existsb (fun k => Number_isFinite (VArr (map VNum a))) a)
       (reject (js "Error: Tamagotchi cannot be ACTIVATEd the amounts: " ++ d)) ;;
    resolve (VArr (map VNum a)))%stmt.

Definition MSG_fun (d : jsstring) : settled := newPromise (resolve (VStr d)).

Definition field (sn db : string) (tp : list string) (fs : bool) (f : jsstring -> settled) :=
  {| shortName := js sn; nameInDB := js db; topics := map js tp; forceSend := fs; fun_ := f |}.

Definition dataTypes : list descriptor := [
  field "time" "timeStamp" ["event"; "sensordata"] false time_fun;
  field "id" "sensortagID" ["event"; "additionalMessages"] false id_fun;
  field "ping" "ping" ["commands"] false ping_fun;
  field "session" "session" ["commands"] false session_fun;
  field "EAT" "eat" ["tamaActions"] false EAT_fun;
  field "EXERCISE" "exercise" ["tamaActions"] false EXERCISE_fun;
  field "PET" "pet" ["tamaActions"] false PET_fun;
  field "ACTIVATE" "ACTIVATE" ["tamaActions"] false ACTIVATE_fun;
  field "MSG1" "msg1" ["additionalMessages"] true MSG_fun;
  field "MSG2" "msg2" ["additionalMessages"] true MSG_fun;
  field "temp" "temperature" ["sensordata"] false (numberField "temperature");
  field "humid" "humidity" ["sensordata"] false (numberField "humidity");
  field "press" "pressure" ["sensordata"] false (numberField "pressure");
  field "light" "lightIntensity" ["sensordata"] false (numberField "light intensity");
  field "ax" "ax" ["sensordata"] false (numberField "acceleration (x)");
  field "ay" "ay" ["sensordata"] false (numberField "acceleration (y)");
  field "az" "az" ["sensordata"] false (numberField "acceleration (z)");
  field "gx" "gx" ["sensordata"] false (numberField "gyroscope (x)");
  field "gy" "gy" ["sensordata"] false (numberField "gyroscope (y)");
  field "gz" "gz" ["sensordata"] false (numberField "gyroscope (z)")
]%string.

End Config.

(** ** config.js of the gateway: [gateway.dataTypes] *)

Module Gateway.

Definition time_fun (d : jsstring) : settled :=
  let a := parseInt d 0 in
  newPromise (
    If (isNaN a) (reject (js "Error: Non-numeric timestamp: " ++ d)) ;;
    resolve (VNum a))%stmt.

Definition id_fun (d : jsstring) : settled :=
  newPromise (
    IfElse (negb (isNaN (parseInt d 16)) && (Z.of_nat (length d) <=? 4))
      (resolve (VStr d))
      (reject (js "Error: SensorTag ID has to be 4 hex digits: " ++ d))).

Definition event_fun (d : jsstring) : settled :=
  newPromise (
    IfElse (includes [js "UP"; js "DOWN"; js "LEFT"; js "RIGHT"] (trim d))
      (resolve (VStr (trim d)))
      (reject (js "Error: Event name not recognized: " ++ d))).

(** [let a = Number.parseFloat(d); if (isNaN(a)) reject(..); resolve(a);] *)
Definition floatField (what : string) (d : jsstring) : settled :=
  let a := parseFloat d in
  newPromise (
    If (isNaN a) (reject (js ("Error: Non-numeric " ++ what ++ ": ") ++ d)) ;;
    resolve (VNum a))%stmt.

Definition dataTypes : list descriptor := [
  Config.field "time" "timestamp" ["event"; "sensordata"] false time_fun;
  Config.field "id" "sensortagID" ["event"; "sensordata"] false id_fun;
  Config.field "event" "movement" ["event"] true event_fun;
  Config.field "temp" "temperature" ["sensordata"] true (floatField "temperature");
  Config.field "humid" "humidity" ["sensordata"] true (floatField "humidity");
  Config.field "press" "pressure" ["sensordata"] true (floatField "pressure");
  Config.field "light" "lightIntensity" ["sensordata"] true (floatField "light intensity");
  Config.field "accx" "accx" ["sensordata"] true (floatField "acceleration (x)");
  Config.field "accy" "accy" ["sensordata"] true (floatField "acceleration (y)");
  Config.field "accz" "accz" ["sensordata"] true (floatField "acceleration (z)");
  Config.field "gyrox" "gyrox" ["sensordata"] true (floatField "gyroscope (x)");
  Config.field "gyroy" "gyroy" ["sensordata"] true (floatField "gyroscope (y)");
  Config.field "gyroz" "gyroz" ["sensordata"] true (floatField "gyroscope (z)")
]%string.

End Gateway.

(** ** lib/uart.js *)

Module Uart.

(** A Node.js [Buffer]: its bytes. *)
Abbreviation buffer := (list Z) (only parsing).

(** An outbound message, the argument of [uartWrite]. A property of the
    object can be absent, [null] (or [undefined]) or given. *)
Inductive property (A : Type) :=
| absent
| null
| given (a : A).
Arguments absent {A}.
Arguments null {A}.
Arguments given {A} a.

Record message := {
  str : jsstring;
  addr : property jsstring;
  internal : bool          (* ["internal" in msg] *)
}.

(** The serial port object, as far as uart.js reads it. *)
Record serialport := { isOpen : bool }.

Inductive callback := uartSender_cb | challengeTimeout_cb.

(** A timer registered with the runtime: its callback and its delay in ms. *)
Inductive timer :=
| setInterval (cb : callback) (ms : Z)
| setTimeout (cb : callback) (ms : Z).

(** Modelled from the spec: lib/portFinder.js is not part of the sources at
    hand. The Port Supervisor tries candidate ports one after the other and
    keeps "a set of failed port identifiers, cleared only on a verified
    handshake response"; a failure "blacklists the candidate and advances".
    Kept here: the identifier of the candidate being tried, if there is one,
    the blacklist, and how often the next candidate was asked for. *)
Record portFinder := {
  candidate : option jsstring;
  blacklist : list jsstring;
  nextPortRequests : nat
}.

Inductive exn := RangeError | TypeError.

(** The program state: the fields of [interface] (config.js) that uart.js
    reads, the module's own variables, and what it has asked of its
    collaborators: the runtime's timers, the port finder, the lines handed to
    [util.showMsg] and the buffers handed to [port.write]. *)
Record state := {
  isServer : bool;
  debugMode : bool;
  txlength : Z;
  heartbeatInterval : Z;
  port : option serialport;
  responded : bool;
  hbTime : option Z;
  uartSendBuffer : list (buffer * bool);
  timers : list timer;
  finder : portFinder;
  shown : list (jsstring * jsstring);
  written : list buffer
}.

Definition set_port (p : option serialport) (s : state) : state :=
  {| isServer := isServer s; debugMode := debugMode s; txlength := txlength s;
     heartbeatInterval := heartbeatInterval s; port := p;
     responded := responded s; hbTime := hbTime s;
     uartSendBuffer := uartSendBuffer s; timers := timers s; finder := finder s;
     shown := shown s; written := written s |}.

Definition set_responded (b : bool) (s : state) : state :=
  {| isServer := isServer s; debugMode := debugMode s; txlength := txlength s;
     heartbeatInterval := heartbeatInterval s; port := port s;
     responded := b; hbTime := hbTime s;
     uartSendBuffer := uartSendBuffer s; timers := timers s; finder := finder s;
     shown := shown s; written := written s |}.

Definition set_uartSendBuffer (q : list (buffer * bool)) (s : state) : state :=
  {| isServer := isServer s; debugMode := debugMode s; txlength := txlength s;
     heartbeatInterval := heartbeatInterval s; port := port s;
     responded := responded s; hbTime := hbTime s;
     uartSendBuffer := q; timers := timers s; finder := finder s;
     shown := shown s; written := written s |}.

Definition set_timers (t : list timer) (s : state) : state :=
  {| isServer := isServer s; debugMode := debugMode s; txlength := txlength s;
     heartbeatInterval := heartbeatInterval s; port := port s;
     responded := responded s; hbTime := hbTime s;
     uartSendBuffer := uartSendBuffer s; timers := t; finder := finder s;
     shown := shown s; written := written s |}.

Definition set_finder (f : portFinder) (s : state) : state :=
  {| isServer := isServer s; debugMode := debugMode s; txlength := txlength s;
     heartbeatInterval := heartbeatInterval s; port := port s;
     responded := responded s; hbTime := hbTime s;
     uartSendBuffer := uartSendBuffer s; timers := timers s; finder := f;
     shown := shown s; written := written s |}.

Definition set_shown (l : list (jsstring * jsstring)) (s : state) : state :=
  {| isServer := isServer s; debugMode := debugMode s; txlength := txlength s;
     heartbeatInterval := heartbeatInterval s; port := port s;
     responded := responded s; hbTime := hbTime s;
     uartSendBuffer := uartSendBuffer s; timers := timers s; finder := finder s;
     shown := l; written := written s |}.

Definition set_written (w : list buffer) (s : state) : state :=
  {| isServer := isServer s; debugMode := debugMode s; txlength := txlength s;
     heartbeatInterval := heartbeatInterval s; port := port s;
     responded := responded s; hbTime := hbTime s;
     uartSendBuffer := uartSendBuffer s; timers := timers s; finder := finder s;
     shown := shown s; written := w |}.

(** *** Computations: state and exceptions *)

Inductive outcome (A : Type) :=
| Returns (a : A) (s : state)
| Throws (e : exn) (s : state).
Arguments Returns {A} a s.
Arguments Throws {A} e s.

Definition M (A : Type) : Type := state -> outcome A.

#[global] Instance M_ret : MRet M := fun A a s => Returns a s.
#[global] Instance M_bind : MBind M := fun A B f m s =>
  match m s with
  | Returns a s' => f a s'
  | Throws e s' => Throws e s'
  end.

Definition get : M state := fun s => Returns s s.
Definition modify (f : state -> state) : M unit := fun s => Returns tt (f s).
Definition throw {A} (e : exn) : M A := fun s => Throws e s.
Definition when (c : bool) (m : M unit) : M unit := if c then m else mret tt.

(** The state a computation ends in, however it ends. *)
Definition final {A} (o : outcome A) : state :=
  match o with Returns _ s | Throws _ s => s end.

(** *** Collaborators *)

(** Modelled from the spec: lib/util.js is not part of the sources at hand;
    [util.showMsg(level, text)] is the "structured log output" every failure
    surfaces as. The lines are kept in the order they were shown. *)
Definition showMsg (lvl text : jsstring) : M unit :=
  modify (fun s => set_shown (shown s ++ [(lvl, text)]) s).

(** Modelled from the spec: [portFinder.clearBlacklist()] empties the
    blacklist ("cleared only on a verified handshake response"). *)
Definition clearBlacklist : M unit :=
  modify (fun s => set_finder {| candidate := candidate (finder s); blacklist := [];
                                  nextPortRequests := nextPortRequests (finder s) |} s).

(** Modelled from the spec: [portFinder.nextPort()] gives the candidate up
    and asks for the next one: a handshake timeout "blacklists the candidate
    and advances", "the next candidate is tried". The candidate joins the
    blacklist and the request is counted; which port the finder tries next
    depends on the ports of the machine and is not modelled. *)
Definition nextPort : M unit :=
  modify (fun s =>
    set_finder {| candidate := candidate (finder s);
                  blacklist := blacklist (finder s)
                               ++ match candidate (finder s) with Some c => [c] | None => [] end;
                  nextPortRequests := S (nextPortRequests (finder s)) |} s).

(** [port.write(buf, cb)]: the buffer is handed to the serial driver. *)
Definition port_write (buf : buffer) : M unit :=
  modify (fun s => set_written (written s ++ [buf]) s).

(** [port.close(cb)]: the driver closes the port, or calls back with an
    error and leaves it as it is. *)
Definition port_close (err : option jsstring) : M unit :=
  match err with
  | None => modify (set_port (Some {| isOpen := false |}))
  | Some _ => mret tt
  end.

(** *** Buffers *)

(** [Buffer.alloc(size)]: zero-filled; a negative size is a RangeError. *)
Definition Buffer_alloc (size : Z) : M buffer :=
  if size <? 0 then throw RangeError else mret (replicate (Z.to_nat size) 0).

(** The integer part of a number, 0 at NaN and the infinities (the start of
    ToUint8 and ToUint32). *)
Definition truncate (a : jsnum) : Z :=
  match a with
  | S754_finite s m e => cond_Zopp s (Z.shiftl (Z.pos m) e)
  | _ => 0
  end.

(** [buf.writeUInt16LE(value)] at offset 0: a value outside 0..65535 and a
    buffer shorter than two bytes are RangeErrors; NaN is neither below 0 nor
    above 65535 and is stored as 0. *)
Definition writeUInt16LE (value : jsnum) (buf : buffer) : M buffer :=
  if SFltb (ofZ false 65535) value || SFltb value (S754_zero false) then throw RangeError
  else if Z.of_nat (length buf) <? 2 then throw RangeError
  else mret (<[1%nat := Z.land (Z.shiftr (truncate value mod 2 ^ 32) 8) 255]>
             (<[0%nat := Z.land (truncate value) 255]> buf)).

(** [buf.readUInt16LE()] at offset 0. *)
Definition readUInt16LE (buf : buffer) : M Z :=
  match buf with
  | b0 :: b1 :: _ => mret (b0 + b1 * 256)
  | _ => throw RangeError
  end.

(** Bytes stored from an offset on; those past the end are not stored. *)
Fixpoint writeBytes (off : nat) (bs : list Z) (buf : buffer) : buffer :=
  match bs with
  | [] => buf
  | b :: r => writeBytes (S off) r (<[off := b]> buf)
  end.

(** [buf.asciiWrite(string, offset)]: one byte per code unit, its low eight
    bits, as many as fit; an offset past the end is a RangeError. *)
Definition asciiWrite (s : jsstring) (offset : nat) (buf : buffer) : M buffer :=
  if (length buf <? offset)%nat then throw RangeError
  else mret (writeBytes offset (map (fun c => Z.land c 255) s) buf).

(** [n.toString(16)] for an integer [0 <= n]. *)
Fixpoint hexDigits (fuel : nat) (n : Z) : jsstring :=
  let d := n mod 16 in
  let c := if d <? 10 then 48 + d else 87 + d in
  match fuel with
  | O => [c]
  | S f => if n <? 16 then [c] else hexDigits f (n / 16) ++ [c]
  end.
Definition toString16 (n : Z) : jsstring := hexDigits (Z.to_nat (Z.log2 n)) n.

(** [s.slice(-4)] *)
Definition slice_last4 (s : jsstring) : jsstring := drop (length s - 4)%nat s.
(** [s.replace(/\0/g, '')] *)
Definition removeNul (s : jsstring) : jsstring := filter (fun c => c ≠ 0) s.
(** [s.replace(/\0*$/, '')] *)
Definition stripTrailingNul (s : jsstring) : jsstring :=
  rev (dropWhile (fun c => c =? 0) (rev s)).

(** [String(msg.addr)] *)
Definition addrToString (a : property jsstring) : jsstring :=
  match a with
  | absent => js "undefined"
  | null => js "null"
  | given s => s
  end.

(** Loose equality [==] of two reads [data[i]] of a buffer, each a byte or
    [undefined]. *)
Definition looseEq (a b : option Z) : bool :=
  match a, b with
  | Some x, Some y => x =? y
  | None, None => true
  | _, _ => false
  end.

(** The window of the heartbeat check,
    [interval*1.5 < now - hbTime && now - hbTime < interval*2.5],
    in the double arithmetic of the source: the products and the difference
    are rounded to binary64 and compared as doubles. [now] is [Date.now()], a
    whole number of milliseconds, and so are the recorded time and the
    interval. An [hbTime] never assigned is [undefined]: the difference is
    NaN and both comparisons are false. *)
Definition inWindow (interval now : Z) (hb : option Z) : bool :=
  let elapsed :=
    SFsub prec emax (ofInt now) (match hb with Some t => ofInt t | None => NaN end) in
  SFltb (SFmul prec emax (ofInt interval) (ofDecimal false 15 (-1))) elapsed
  && SFltb elapsed (SFmul prec emax (ofInt interval) (ofDecimal false 25 (-1))).

Section Runtime.

(** [buf.toString()], the UTF-8 decoding of a buffer, and [JSON.stringify]
    at a string: only the text of log lines depends on them. *)
Variable Buffer_toString : buffer -> jsstring.
Variable JSON_stringify : jsstring -> jsstring.

(** *** uartSender *)

(** The callback of [port.write], called with the driver's error if any. *)
Definition writeDone (err : option jsstring) (publish : bool) (msg addr : jsstring) : M unit :=
  s ← get;
  match err with
  | Some message => showMsg (js "error") (js "UART write error: " ++ message)
  | None =>
      if negb (isServer s) then
        showMsg (js "info") (js "Sent '" ++ msg ++ js "' to connected SensorTag.")
      else if publish && from_option isOpen false (port s) then
        showMsg (js "info") (js "Sent '" ++ msg ++ js "' to 0x" ++ addr)
      else if publish then
        showMsg (js "error") (js "Sending aborted. SensorTag isn't connected.")
      else mret tt
  end.

(** One run of [uartSender]; [err] is what the driver will report for the
    write, should one be made. The callback only shows a line; it is run
    with the write. *)
Definition uartSender (err : option jsstring) : M unit :=
  s ← get;
  match uartSendBuffer s, port s with
  | [], _ | _, None => mret tt
  | (txBuf, publish) :: rest, Some _ =>
      modify (set_uartSendBuffer rest);;
      '(msg, addr) ←
        (if isServer s then
           n ← readUInt16LE txBuf;
           mret (removeNul (Buffer_toString (drop 2 txBuf)),
                 slice_last4 (js "0000" ++ toString16 n))
         else mret (removeNul (Buffer_toString txBuf), []));
      port_write txBuf;;
      writeDone err publish msg addr
  end.

(** [uartSenderService = setInterval(uartSender, 50)] *)
Definition uartSenderService : timer := setInterval uartSender_cb 50.

(** *** uartWrite *)

(** [publish] is [true] when the caller leaves it out. *)
Definition uartWrite (msg : message) (publish : bool) : M unit :=
  s ← get;
  txBuf ← Buffer_alloc (txlength s);
  when (debugMode s)
    (showMsg (js "info")
       (js "Added to UART send queue: 0x" ++ addrToString (addr msg)
        ++ js ":'" ++ str msg ++ js "'"));;
  txBuf ←
    (if isServer s && negb (internal msg) then
       let a := match addr msg with given a => a | _ => js "ffff" end in
       txBuf ← writeUInt16LE (parseInt a 16) txBuf;
       asciiWrite (substr0 (str msg) (txlength s - 3)) 2 txBuf
     else
       asciiWrite (substr0 (str msg) (txlength s - 1)) 0 txBuf);
  modify (fun s => set_uartSendBuffer (uartSendBuffer s ++ [(txBuf, publish)]) s).

(** *** heartbeat *)

Definition heartbeat (now : Z) : M unit :=
  s ← get;
  when (inWindow (heartbeatInterval s) now (hbTime s))
    (showMsg (js "error") (js "Error: Heartbeat: The ServerTag has possibly crashed!"));;
  uartWrite {| str := 0 :: 0 :: 1 :: js "HB"; addr := absent; internal := true |} false.

(** *** parseChallenge *)

Definition parseChallenge (data : buffer) : M bool :=
  s ← get;
  when (debugMode s)
    (showMsg (js "info")
       (js "UART:" ++ JSON_stringify (stripTrailingNul (Buffer_toString data))));;
  when (looseEq (data !! 0%nat) (data !! 1%nat) && looseEq (data !! 1%nat) (Some 254)
        && looseEq (data !! 2%nat) (Some 1))
    (let str := stripTrailingNul (Buffer_toString (drop 3 data)) in
     showMsg (js "info") (js "Challenge response: " ++ str);;
     clearBlacklist;;
     modify (set_responded true));;
  mret false.

(** *** sendChallenge *)

(** The function handed to [setTimeout]; [err] is what the driver will
    report for the close, should one be made. *)
Definition challengeTimeout (err : option jsstring) : M unit :=
  s ← get;
  if negb (responded s) then
    showMsg (js "info") (js "No response to challenge. Disconnecting.");;
    nextPort;;
    match port s with
    | None => throw TypeError
    | Some _ =>
        port_close err;;
        match err with
        | Some e => showMsg (js "error") (js "Port close error: " ++ e)
        | None => mret tt
        end
    end;;
    showMsg (js "info") [10]
  else mret tt.

Definition sendChallenge : M unit :=
  uartWrite {| str := 0 :: 0 :: 1 :: js "Identify"; addr := absent; internal := true |} false;;
  modify (set_responded false);;
  modify (fun s => set_timers (timers s ++ [setTimeout challengeTimeout_cb 3000]) s).

(** *** The module when loaded *)

Definition loaded (server debug : bool) (txlen interval : Z) : state :=
  {| isServer := server; debugMode := debug; txlength := txlen;
     heartbeatInterval := interval; port := None;
     responded := false; hbTime := None; uartSendBuffer := [];
     timers := [uartSenderService];
     finder := {| candidate := None; blacklist := []; nextPortRequests := 0 |};
     shown := []; written := [] |}.

(** *** The event loop *)

(** What a timer runs when it fires. *)
Definition fire (cb : callback) (err : option jsstring) : M unit :=
  match cb with
  | uartSender_cb => uartSender err
  | challengeTimeout_cb => challengeTimeout err
  end.

(** What happens to the module between two turns of the event loop: a
    caller enqueues a message, the interval timer of [uartSenderService]
    fires ([err] is what the driver reports for the write, should one be
    made), or [interface.port] is assigned. *)
Inductive event :=
| Write (msg : message) (publish : bool)
| Tick (err : option jsstring)
| Port (p : option serialport).

Definition step (e : event) : M unit :=
  match e with
  | Write msg publish => uartWrite msg publish
  | Tick err => fire uartSender_cb err
  | Port p => modify (set_port p)
  end.

Fixpoint run (es : list event) : M unit :=
  match es with
  | [] => mret tt
  | e :: r => step e;; run r
  end.

(** *** The clock *)

(** The delay of the interval timer of [uartSender] among the timers
    registered, if there is one. *)
Fixpoint senderInterval (ts : list timer) : option Z :=
  match ts with
  | [] => None
  | setInterval uartSender_cb ms :: _ => Some ms
  | _ :: r => senderInterval r
  end.

(** The turns of the event loop up to the [n]th firing of the interval
    timer: before each firing the calls made by the other modules since the
    firing before ([calls i], in order), then the callback; [errs i] is what
    the driver reports for the write of the firing, should one be made. *)
Fixpoint turns (n : nat) (calls : nat -> list event) (errs : nat -> option jsstring)
    : list event :=
  match n with
  | O => []
  | S i => turns i calls errs ++ calls i ++ [Tick (errs i)]
  end.

(** The turns of the first [T] ms after the timers [ts] were registered, by
    an exact clock: [setInterval(f, ms)] has called [f] [T / ms] times by then
    (a delay below 1 ms counts as 1 ms), and the calls made since the last
    firing come last. Without an interval timer nothing fires. *)
Definition timeline (T : Z) (ts : list timer) (calls : nat -> list event)
    (errs : nat -> option jsstring) : list event :=
  let n := match senderInterval ts with
           | Some ms => Z.to_nat (T / Z.max ms 1)
           | None => O
           end in
  turns n calls errs ++ calls n.

End Runtime.

End Uart.

Import Uart.

(** ** The vocabulary of the properties *)

(** Both registries. *)
Definition registry : list descriptor := Config.dataTypes ++ Gateway.dataTypes.

(** The double of [(-1)^s * p * 2^e] for a [p] of 53 bits at most, in the
    normal range: [p] shifted left to 53 bits. *)
Definition slack (p : positive) : N := Z.to_N (53 - Z.pos (digits2_pos p)).

Definition normal (s : bool) (p : positive) (e : Z) : jsnum :=
  S754_finite s (Pos.shiftl p (slack p)) (e - Z.of_N (slack p)).

(** The double nearest to [a * 2^e], for an integer [a]. *)
Definition dyadic (a e : Z) : jsnum := binary_normalize prec emax a e false.

(** A finite double as a multiple of 2^-1074. *)
Definition scaled (x : jsnum) : Z :=
  match x with
  | S754_finite s m e => cond_Zopp s (Z.pos m * 2 ^ (e + 1074))
  | _ => 0
  end.

(** Multiplexed mode for a message: server mode, and no [internal] key. *)
Definition multiplexed (s : state) (msg : message) : bool :=
  isServer s && negb (internal msg).

Definition isHexDigit (c : Z) : bool :=
  (48 <=? c) && (c <=? 57) || (65 <=? c) && (c <=? 70) || (97 <=? c) && (c <=? 102).

Definition hexDigitValue (c : Z) : Z :=
  if c <=? 57 then c - 48 else if c <=? 70 then c - 55 else c - 87.

(** A device address as uartWrite documents it: hex characters, at most
    four of them. *)
Definition isAddress (a : jsstring) : Prop :=
  a ≠ [] ∧ (length a ≤ 4)%nat ∧ Forall (fun c => isHexDigit c = true) a.

(** The 16-bit address of a message; broadcast when none is given. *)
Definition addressValue (a : property jsstring) : Z :=
  match a with
  | given a => digitsValue 16 (map hexDigitValue a)
  | _ => 65535
  end.

(** A configuration and a message uartWrite is meant for: room in the
    transmit buffer for the address and the terminating zero, and an address
    that is one. *)
Definition wellFormed (s : state) (msg : message) : Prop :=
  if multiplexed s msg
  then 3 <= txlength s ∧ match addr msg with given a => isAddress a | _ => True end
  else 1 <= txlength s.

Definition header (s : state) (msg : message) : buffer :=
  if multiplexed s msg
  then [addressValue (addr msg) mod 256; addressValue (addr msg) / 256]
  else [].

Definition payload (s : state) (msg : message) : buffer :=
  map (fun c => Z.land c 255)
      (take (Z.to_nat (txlength s) - length (header s msg) - 1) (str msg)).

Definition frame (s : state) (msg : message) : buffer :=
  header s msg ++ payload s msg
  ++ replicate (Z.to_nat (txlength s) - length (header s msg) - length (payload s msg)) 0.

Definition debugLine (s : state) (msg : message) : list (jsstring * jsstring) :=
  if debugMode s
  then [(js "info", js "Added to UART send queue: 0x" ++ addrToString (addr msg)
                    ++ js ":'" ++ str msg ++ js "'")]
  else [].

(** The state after [uartWrite]: the frame at the back of the queue, and in
    debug mode one more line shown. *)
Definition afterWrite (s : state) (msg : message) (publish : bool) : state :=
  set_uartSendBuffer (uartSendBuffer s ++ [(frame s msg, publish)])
    (set_shown (shown s ++ debugLine s msg) s).

Definition roomy (s : state) : Prop :=
  if isServer s then 3 <= txlength s else 1 <= txlength s.

Definition eventOk (s : state) (e : event) : Prop :=
  match e with
  | Write msg _ => roomy s ∧ match addr msg with given a => isAddress a | _ => True end
  | _ => True
  end.

Definition isTick (e : event) : bool :=
  match e with Tick _ => true | _ => false end.

Fixpoint frames (s : state) (es : list event) : list (list Z) :=
  match es with
  | [] => []
  | Write msg _ :: r => frame s msg :: frames s r
  | _ :: r => frames s r
  end.

Fixpoint ticks (es : list event) : nat :=
  match es with
  | [] => O
  | Tick _ :: r => S (ticks r)
  | _ :: r => ticks r
  end.

Definition queueReady (s : state) : Prop :=
  isServer s = true → Forall (fun bp => (2 ≤ length (fst bp))%nat) (uartSendBuffer s).

(** The heartbeat probe and the challenge, as [heartbeat] and
    [sendChallenge] hand them to [uartWrite]. *)
Definition probe : message :=
  {| str := 0 :: 0 :: 1 :: js "HB"; addr := absent; internal := true |}.
Definition challenge : message :=
  {| str := 0 :: 0 :: 1 :: js "Identify"; addr := absent; internal := true |}.

(** The line [heartbeat] shows when it suspects a crash. *)
Definition suspectLine : list Z * list Z :=
  (js "error", js "Error: Heartbeat: The ServerTag has possibly crashed!").

(** The acknowledgement pattern of the challenge. *)
Definition isAck (data : list Z) : Prop :=
  data !! 0%nat = Some 254 ∧ data !! 1%nat = Some 254 ∧ data !! 2%nat = Some 1.

(** A port connected, and a heartbeat recorded at time 0. *)
Definition connected (server : bool) (txlen : Z) : state :=
  {| isServer := server; debugMode := false; txlength := txlen;
     heartbeatInterval := 15000; port := Some {| isOpen := true |};
     responded := true; hbTime := Some 0; uartSendBuffer := [];
     timers := [uartSenderService];
     finder := {| candidate := Some (js "COM4"); blacklist := [js "COM3"];
                  nextPortRequests := 0 |};
     shown := []; written := [] |}.

(** The module as it is when loaded in server mode, with 17 bytes to a
    frame, and a port attached since. *)
Definition attached : state :=
  set_port (Some {| isOpen := true |}) (loaded true false 17 15000).

(** A message for the device 0x01a2, and a run of the event loop: three
    messages enqueued between ticks, one of the writes failing. *)
Definition hello : message :=
  {| str := js "hello"; addr := given (js "01a2"); internal := false |}.

Definition busy : list event :=
  [Write hello true; Write probe false; Tick None; Write challenge false;
   Tick (Some (js "EIO")); Tick None; Tick None].

(** The same run by the clock: the first 200 ms after the module was loaded,
    two messages enqueued before the first firing of the timer and one before
    the second, the second write failing. *)
Definition busy_calls (i : nat) : list event :=
  match i with
  | 0%nat => [Write hello true; Write probe false]
  | 1%nat => [Write challenge false]
  | _ => []
  end.
Definition busy_errs (i : nat) : option (list Z) :=
  match i with 1%nat => Some (js "EIO") | _ => None end.

(** A connected interface with two frames waiting. *)
Definition waiting : state :=
  set_uartSendBuffer [(frame (connected false 17) probe, false);
                      (frame (connected false 17) hello, true)]
    (connected false 17).

(** ** More vocabulary *)

(** [interface.topics] and [gateway.topics] *)
Definition interface_topics : list (list Z) :=
  map js ["event"; "tamaActions"; "additionalMessages"; "sensordata"; "commands"]%string.
Definition gateway_topics : list (list Z) := map js ["event"; "sensordata"]%string.

(** A typed value that holds no NaN. *)
Fixpoint noNaN (v : value) : bool :=
  match v with
  | VNum a => negb (isNaN a)
  | VArr l => forallb noNaN l
  | _ => true
  end.

(** The names of the gateway's movement events. *)
Definition movements : list (list Z) := map js ["UP"; "DOWN"; "LEFT"; "RIGHT"]%string.

(** A string that trimming leaves as it is. *)
Definition trimmed (s : list Z) : Prop :=
  dropWhile isStrWhiteSpaceChar s = s
  ∧ dropWhile isStrWhiteSpaceChar (rev s) = rev s.

(** The integers from [z] on, [n] of them. *)
Fixpoint zrange (n : nat) (z : Z) : list Z :=
  match n with
  | O => []
  | S k => z :: zrange k (z + 1)
  end.

(** The address text [uartSender] shows for a 16-bit address. *)
Definition addressText (v : Z) : list Z := slice_last4 (js "0000" ++ toString16 v).

(** The check that an address text reads back as its address. *)
Definition addressTextOk (v : Z) : bool :=
  let t := addressText v in
  (length t =? 4)%nat && forallb isHexDigit t
  && (digitsValue 16 (map hexDigitValue t) =? v).

(** A call of one of the module's functions, by whoever holds the module: the
    functions it exports, the callbacks it hands to the timers, and the
    assignment of [interface.port]. *)
Inductive action :=
| DoWrite (msg : message) (publish : bool)
| DoTick (err : option (list Z))
| DoHeartbeat (now : Z)
| DoData (data : list Z)
| DoChallenge
| DoTimeout (err : option (list Z))
| DoPort (p : option serialport).

Definition act (toStr json : list Z → list Z) (a : action) : M unit :=
  match a with
  | DoWrite msg publish => uartWrite msg publish
  | DoTick err => fire toStr uartSender_cb err
  | DoHeartbeat now => heartbeat now
  | DoData data => _ ← parseChallenge toStr json data; mret tt
  | DoChallenge => sendChallenge
  | DoTimeout err => fire toStr challengeTimeout_cb err
  | DoPort p => modify (set_port p)
  end.

(** The state after a sequence of calls, each ending normally or with an
    exception (the state it was thrown in is where the next call starts). *)
Definition reach (toStr json : list Z → list Z) (acts : list action) (s : state) : state :=
  fold_left (fun s a => final (act toStr json a s)) acts s.

Definition isDoTick (a : action) : bool :=
  match a with DoTick _ => true | _ => false end.

(** The frames of a run of the challenge-response: the challenge is sent,
    the inbound frames are parsed in order, the timeout fires. *)
Fixpoint parseAll (toStr json : list Z → list Z) (ds : list (list Z)) : M unit :=
  match ds with
  | [] => mret tt
  | d :: r => _ ← parseChallenge toStr json d; parseAll toStr json r
  end.

Definition handshake (toStr json : list Z → list Z) (ds : list (list Z))
    (err : option (list Z)) : M unit :=
  sendChallenge;; parseAll toStr json ds;; fire toStr challengeTimeout_cb err.

(** Heartbeats at the given times, one after the other. *)
Fixpoint heartbeats (times : list Z) : M unit :=
  match times with
  | [] => mret tt
  | now :: r => heartbeat now;; heartbeats r
  end.

(** The times of the first [n] probes after a heartbeat recorded at [t]. *)
Definition probeTimes (t interval : Z) (n : nat) : list Z :=
  map (fun k => t + Z.of_nat k * interval) (seq 1 n).

(** The suspect lines among the lines shown. *)
Definition suspicions (lines : list (list Z * list Z)) : nat :=
  length (filter (fun l => l = suspectLine) lines).

(** 7-bit text without NUL: what a serial device and the UTF-8 decoder
    agree on. *)
Definition isAsciiText (text : list Z) : Prop := Forall (fun c => 1 <= c < 128) text.

(** A decoder that is the identity on 7-bit bytes, as UTF-8 decoding is. *)
Definition decodesAscii (toStr : list Z → list Z) : Prop :=
  ∀ b, Forall (fun c => 0 <= c < 128) b → toStr b = b.

(** What no call of the module changes, and what a call can only add to. *)
Definition keeps (s s' : state) : Prop :=
  isServer s' = isServer s ∧ debugMode s' = debugMode s ∧ txlength s' = txlength s
  ∧ heartbeatInterval s' = heartbeatInterval s ∧ hbTime s' = hbTime s
  ∧ (∃ more, timers s' = timers s ++ more)
  ∧ (∃ more, shown s' = shown s ++ more)
  ∧ (∃ more, written s' = written s ++ more)
  ∧ (nextPortRequests (finder s) ≤ nextPortRequests (finder s'))%nat.

(** A computation whose end state, however it ends, is related to its
    start state. *)
Definition Preserves {A} (R : state → state → Prop) (m : M A) : Prop :=
  ∀ s, R s (final (m s)).

(** Nothing more handed to the port. *)
Definition sameWritten (s s' : state) : Prop := written s' = written s.

(** What parsing an inbound frame leaves alone: all but the responded flag,
    the blacklist and the lines shown. *)
Definition parsed (s s' : state) : Prop :=
  port s' = port s ∧ uartSendBuffer s' = uartSendBuffer s ∧ timers s' = timers s
  ∧ nextPortRequests (finder s') = nextPortRequests (finder s)
  ∧ (responded s = true → responded s' = true)
  ∧ (blacklist (finder s') = blacklist (finder s) ∨ blacklist (finder s') = []).

Definition isPort (e : event) : bool :=
  match e with Port _ => true | _ => false end.

(** ** Properties of the schema registries *)

Example temp_23_5 :
  Config.numberField "temperature" (js "23.5") = Fulfilled (VNum (ofRatio false 47 2)).
Proof. vm_compute. reflexivity. Qed.

Example gateway_temp_23_5 :
  Gateway.floatField "temperature" (js "23.5") = Fulfilled (VNum (ofRatio false 47 2)).
Proof. vm_compute. reflexivity. Qed.

Example temp_abc :
  Config.numberField "temperature" (js "abc")
  = Rejected (js "Error: Non-numeric temperature: abc").
Proof. vm_compute. reflexivity. Qed.

Lemma resolve_settles v p : resolve v p ≠ Pending.
Proof. destruct p; discriminate. Qed.

Lemma reject_settles r p : reject r p ≠ Pending.
Proof. destruct p; discriminate. Qed.

(** Every parse function of the registries settles its promise. *)
Lemma parse_settles desc d : desc ∈ registry → fun_ desc d ≠ Pending.
Proof.
  intros Hin. apply list_elem_of_In in Hin. unfold registry in Hin.
  cbn [Config.dataTypes Gateway.dataTypes app In] in Hin.
  repeat (destruct Hin as [<- | Hin];
          [ cbn [fun_ Config.field];
            first [ apply resolve_settles
                  | unfold Config.id_fun, Config.session_fun, Gateway.id_fun,
                      Gateway.event_fun, newPromise, IfElse;
                    match goal with |- context [if ?c then _ else _] => destruct c end;
                    cbn; discriminate ] | ]).
  destruct Hin.
Qed.

(** The finiteness guard of ACTIVATE is false at every array. *)
Lemma ACTIVATE_guard_false (a : list jsnum) :
  existsb (fun _ => Number_isFinite (VArr (map VNum a))) a = false.
Proof. generalize (map VNum a). intros l. induction a; cbn; auto. Qed.

(** C10. The finiteness guard of ACTIVATE never rejects: an input that
    splits on [;] into exactly three components, none of which converts to
    NaN, is resolved with the three numbers, whether finite or not. *)
Theorem ACTIVATE_resolves_three (d x y z : jsstring) :
  split 59 d = [x; y; z] →
  isNaN (Number x) = false → isNaN (Number y) = false → isNaN (Number z) = false →
  Config.ACTIVATE_fun d
  = Fulfilled (VArr [VNum (Number x); VNum (Number y); VNum (Number z)]).
Proof.
  intros Hs Hx Hy Hz. unfold Config.ACTIVATE_fun, newPromise.
  rewrite ACTIVATE_guard_false. rewrite Hs.
  assert (Hd : jseqb d [] = false).
  { unfold jseqb. apply bool_decide_eq_false. intros ->. discriminate Hs. }
  cbn [map length existsb]. rewrite Hx, Hy, Hz, Hd. reflexivity.
Qed.

Lemma ACTIVATE_resolves_three_witness :
  Config.ACTIVATE_fun (js "Infinity;1;-2.5")
  = Fulfilled (VArr [VNum (S754_infinity false); VNum (ofZ false 1); VNum (ofRatio true 5 2)]).
Proof.
  exact (ACTIVATE_resolves_three (js "Infinity;1;-2.5") (js "Infinity") (js "1") (js "-2.5")
           eq_refl eq_refl eq_refl eq_refl).
Defined.
(** ** Properties of lib/uart.js *)

(** *** Numbers that fit sixteen bits *)

Lemma digits2_pos_bound p (n : nat) :
  Z.pos p < 2 ^ Z.of_nat n → (Pos.to_nat (digits2_pos p) ≤ n)%nat.
Proof.
  revert n. induction p as [p IH|p IH|]; intros n Hn; cbn [digits2_pos];
    (destruct n as [|n]; [cbn in Hn; lia|]);
    try (rewrite Nat2Z.inj_succ, Z.pow_succ_r in Hn by lia;
         specialize (IH n); rewrite Pos2Nat.inj_succ; lia).
  cbn. lia.
Qed.

Lemma digits2_pos_shift p k :
  digits2_pos (Pos.iter xO p k) = (digits2_pos p + k)%positive.
Proof.
  induction k as [|k IH] using Pos.peano_ind.
  - cbn. lia.
  - rewrite Pos.iter_succ. cbn [digits2_pos]. rewrite IH. lia.
Qed.

Lemma shift_back p k : Z.shiftl (Z.pos (Pos.iter xO p k)) (Z.neg k) = Z.pos p.
Proof.
  change (Z.shiftl (Z.pos (Pos.iter xO p k)) (Z.neg k))
    with (Pos.iter Z.div2 (Z.pos (Pos.iter xO p k)) k).
  induction k as [|k IH] using Pos.peano_ind.
  - reflexivity.
  - rewrite Pos.iter_succ_r, Pos.iter_succ. exact IH.
Qed.

(** An integer of fewer than 53 bits is a double: its bits, shifted left to
    a 53-bit mantissa. *)
Lemma ofZ_exact p k :
  (digits2_pos p + k = 53)%positive →
  ofZ false (Z.pos p) = S754_finite false (Pos.iter xO p k) (Z.neg k).
Proof.
  intros Hk. unfold ofZ, binary_round, shl_align.
  assert (Hf : fexp prec emax (Z.pos (digits2_pos p) + 0) = Z.neg k).
  { unfold fexp, emin, prec, emax. lia. }
  rewrite Hf. change (Z.neg k - 0) with (Z.neg k). cbv iota beta.
  unfold binary_round_aux, shr_fexp, shr_record_of_loc, Zdigits2.
  rewrite digits2_pos_shift, Hk.
  change (fexp prec emax (53 + Z.neg k)) with (Z.max (53 + Z.neg k - 53) (-1074)).
  replace (Z.max (53 + Z.neg k - 53) (-1074) - Z.neg k) with 0 by lia.
  cbn [shr shr_m loc_of_shr_record round_nearest_even].
  rewrite digits2_pos_shift, Hk.
  change (fexp prec emax (53 + Z.neg k)) with (Z.max (53 + Z.neg k - 53) (-1074)).
  replace (Z.max (53 + Z.neg k - 53) (-1074) - Z.neg k) with 0 by lia.
  cbn [shr shr_m]. 
  destruct (Z.leb_spec (Z.neg k) (emax - prec)) as [_|H]; [reflexivity|].
  unfold emax, prec in H. lia.
Qed.

Lemma compare_cont_shift p q k :
  Pos.compare_cont Eq (Pos.iter xO p k) (Pos.iter xO q k) = Pos.compare_cont Eq p q.
Proof.
  induction k as [|k IH] using Pos.peano_ind.
  - reflexivity.
  - rewrite !Pos.iter_succ. exact IH.
Qed.

(** What [writeUInt16LE] asks of a 16-bit integer held in a double: it is
    neither above 65535 nor below 0, and its integer part is itself. *)
Lemma u16_double v :
  0 <= v < 65536 →
  SFltb (ofZ false 65535) (ofZ false v) = false
  ∧ SFltb (ofZ false v) (S754_zero false) = false
  ∧ truncate (ofZ false v) = v.
Proof.
  intros Hv. destruct v as [|p|p]; [repeat split; reflexivity| |lia].
  pose proof (digits2_pos_bound p 16 ltac:(lia)) as Hd.
  set (k := (53 - digits2_pos p)%positive).
  assert (Hk : (digits2_pos p + k = 53)%positive) by lia.
  rewrite (ofZ_exact p k Hk).
  rewrite (ofZ_exact 65535 37 eq_refl).
  split; [|split].
  - unfold SFltb, SFcompare.
    destruct (Z.compare_spec (Z.neg 37) (Z.neg k)) as [E|L|G]; try reflexivity; [|lia].
    injection E as <-. rewrite compare_cont_shift.
    change (Pos.compare_cont Eq 65535 p) with (Pos.compare 65535 p).
    destruct (Pos.compare_spec 65535 p); try reflexivity. lia.
  - reflexivity.
  - unfold truncate, cond_Zopp. apply shift_back.
Qed.

Lemma writeUInt16LE_ok v buf s :
  0 <= v < 65536 → (2 ≤ length buf)%nat →
  writeUInt16LE (ofZ false v) buf s
  = Returns (v mod 256 :: v / 256 :: drop 2 buf) s.
Proof.
  intros Hv Hl. destruct (u16_double v Hv) as (Hhi & Hlo & Ht).
  unfold writeUInt16LE. rewrite Hhi, Hlo, Ht. cbn [orb].
  destruct (Z.ltb_spec (Z.of_nat (length buf)) 2) as [?|_]; [lia|].
  destruct buf as [|b0 [|b1 buf]]; cbn in Hl; try lia.
  cbn. unfold mret, M_ret. f_equal. f_equal; [|f_equal].
  - change 255 with (Z.ones 8). rewrite Z.land_ones by lia. reflexivity.
  - rewrite (Z.mod_small v (2 ^ 32)) by lia.
    rewrite Z.shiftr_div_pow2 by lia.
    change 255 with (Z.ones 8). rewrite Z.land_ones by lia.
    change (2 ^ 8) with 256. apply Z.mod_small.
    split; [apply Z.div_pos; lia | apply Z.div_lt_upper_bound; lia].
Qed.

(** *** Doubles that are exact

    Whole numbers of milliseconds below 2^53, their differences and their
    products by 1.5 and 2.5 are doubles: the arithmetic of the heartbeat
    check rounds nothing away, and the order of the doubles is the order of
    the numbers. *)

Lemma iter_pos_iter {A} (f : A → A) n : ∀ x, SpecFloat.iter_pos f n x = Pos.iter f x n.
Proof.
  induction n as [n IH|n IH|]; intros x; cbn [SpecFloat.iter_pos Pos.iter].
  - rewrite !IH. rewrite <- !Pos.iter_swap. reflexivity.
  - rewrite !IH. reflexivity.
  - reflexivity.
Qed.

Lemma digits2_pos_spec p :
  2 ^ (Z.pos (digits2_pos p) - 1) <= Z.pos p < 2 ^ Z.pos (digits2_pos p).
Proof.
  induction p as [p IH|p IH|]; cbn [digits2_pos]; [| |cbn; lia].
  all: rewrite Pos2Z.inj_succ;
    replace (Z.succ (Z.pos (digits2_pos p)) - 1) with (Z.succ (Z.pos (digits2_pos p) - 1)) by lia;
    rewrite !Z.pow_succ_r by lia; lia.
Qed.

Lemma Zpos_iter_xO p k : Z.pos (Pos.iter xO p k) = Z.pos p * 2 ^ Z.pos k.
Proof.
  induction k as [|k IH] using Pos.peano_ind.
  - cbn. lia.
  - rewrite Pos.iter_succ, Pos2Z.inj_xO, IH, Pos2Z.inj_succ, Z.pow_succ_r by lia. lia.
Qed.

Lemma Zpos_shiftl p n : Z.pos (Pos.shiftl p n) = Z.pos p * 2 ^ Z.of_N n.
Proof.
  destruct n as [|k]; unfold Pos.shiftl; cbn [Z.of_N]; [|apply Zpos_iter_xO].
  change (2 ^ 0) with 1. lia.
Qed.

Lemma digits2_pos_shiftl p n :
  Z.pos (digits2_pos (Pos.shiftl p n)) = Z.pos (digits2_pos p) + Z.of_N n.
Proof.
  destruct n as [|k]; unfold Pos.shiftl; cbn [Z.of_N]; [lia|]. rewrite digits2_pos_shift. lia.
Qed.

Lemma shiftl_shiftl p a b : Pos.shiftl (Pos.shiftl p a) b = Pos.shiftl p (a + b).
Proof.
  apply Pos2Z.inj. rewrite !Zpos_shiftl, N2Z.inj_add, Z.pow_add_r by lia. lia.
Qed.

Lemma shiftl_mul p q a b :
  (Pos.shiftl p a * Pos.shiftl q b)%positive = Pos.shiftl (p * q) (a + b).
Proof.
  apply Pos2Z.inj. rewrite Pos2Z.inj_mul, !Zpos_shiftl, N2Z.inj_add, Z.pow_add_r by lia.
  rewrite Pos2Z.inj_mul. lia.
Qed.

(** Shifting out zeros loses nothing. *)
Lemma shr_zeros q k :
  SpecFloat.iter_pos shr_1 k {| shr_m := Z.pos (Pos.iter xO q k); shr_r := false; shr_s := false |}
  = {| shr_m := Z.pos q; shr_r := false; shr_s := false |}.
Proof.
  rewrite iter_pos_iter.
  induction k as [|k IH] using Pos.peano_ind.
  - reflexivity.
  - rewrite Pos.iter_succ_r, Pos.iter_succ. exact IH.
Qed.

Lemma bounded_spec q x :
  bounded prec emax q x = true
  ↔ Z.max (Z.pos (digits2_pos q) + x - 53) (-1074) = x ∧ x <= 971.
Proof.
  unfold bounded, canonical_mantissa, fexp, emin, prec, emax.
  rewrite andb_true_iff, Z.eqb_eq, Z.leb_le. reflexivity.
Qed.

(** Rounding a number that is a double gives that double. *)
Lemma round_aux_exact s q x n :
  bounded prec emax q x = true →
  binary_round_aux prec emax s (Z.pos (Pos.shiftl q n)) (x - Z.of_N n) loc_Exact
  = S754_finite s q x.
Proof.
  intros Hb. apply bounded_spec in Hb as [Hc Hx].
  unfold binary_round_aux, shr_fexp, shr_record_of_loc, Zdigits2.
  rewrite digits2_pos_shiftl.
  replace (fexp prec emax (Z.pos (digits2_pos q) + Z.of_N n + (x - Z.of_N n))) with x
    by (unfold fexp, emin, prec, emax; lia).
  replace (x - (x - Z.of_N n)) with (Z.of_N n) by lia.
  assert (Hs : shr {| shr_m := Z.pos (Pos.shiftl q n); shr_r := false; shr_s := false |}
                 (x - Z.of_N n) (Z.of_N n)
               = ({| shr_m := Z.pos q; shr_r := false; shr_s := false |}, x)).
  { destruct n as [|k]; unfold Pos.shiftl; cbn [Z.of_N shr].
    - f_equal. lia.
    - rewrite shr_zeros. f_equal. lia. }
  rewrite Hs. cbn [shr_m loc_of_shr_record round_nearest_even Zdigits2].
  replace (fexp prec emax (Z.pos (digits2_pos q) + x) - x) with 0
    by (unfold fexp, emin, prec, emax; lia).
  cbn [shr shr_m].
  destruct (Z.leb_spec x (emax - prec)) as [_|H]; [reflexivity|].
  unfold emax, prec in H. lia.
Qed.

Lemma round_exact_down s q x n :
  bounded prec emax q x = true →
  binary_round prec emax s (Pos.shiftl q n) (x - Z.of_N n) = S754_finite s q x.
Proof.
  intros Hb. pose proof (proj1 (bounded_spec q x) Hb) as [Hc Hx].
  unfold binary_round, shl_align. rewrite digits2_pos_shiftl.
  replace (fexp prec emax (Z.pos (digits2_pos q) + Z.of_N n + (x - Z.of_N n))) with x
    by (unfold fexp, emin, prec, emax; lia).
  replace (x - (x - Z.of_N n)) with (Z.of_N n) by lia.
  destruct n as [|k]; cbn [Z.of_N].
  - apply (round_aux_exact s q x 0%N Hb).
  - apply (round_aux_exact s q x (N.pos k) Hb).
Qed.

Lemma round_exact_up s p e n :
  bounded prec emax (Pos.shiftl p n) (e - Z.of_N n) = true →
  binary_round prec emax s p e = S754_finite s (Pos.shiftl p n) (e - Z.of_N n).
Proof.
  intros Hb. pose proof (proj1 (bounded_spec _ _) Hb) as [Hc Hx].
  rewrite digits2_pos_shiftl in Hc.
  unfold binary_round, shl_align.
  replace (fexp prec emax (Z.pos (digits2_pos p) + e)) with (e - Z.of_N n)
    by (unfold fexp, emin, prec, emax; lia).
  replace (e - Z.of_N n - e) with (- Z.of_N n) by lia.
  pose proof (round_aux_exact s (Pos.shiftl p n) (e - Z.of_N n) 0 Hb) as H.
  unfold Pos.shiftl at 1 in H. cbn [Z.of_N] in H. rewrite Z.sub_0_r in H.
  destruct n as [|k]; unfold Pos.shiftl in *; cbn [Z.of_N Z.opp] in *.
  - rewrite Z.sub_0_r in *. exact H.
  - exact H.
Qed.

Lemma digits_le_53 p : Z.pos p < 2 ^ 53 → Z.pos (digits2_pos p) <= 53.
Proof.
  intros Hp. pose proof (digits2_pos_spec p) as [Hlo _].
  destruct (Z.le_gt_cases (Z.pos (digits2_pos p)) 53) as [?|Hgt]; [assumption|].
  assert (2 ^ 53 <= 2 ^ (Z.pos (digits2_pos p) - 1)) by (apply Z.pow_le_mono_r; lia). lia.
Qed.

Lemma normal_bounded p e :
  Z.pos p < 2 ^ 53 → -1021 <= e <= 971 →
  bounded prec emax (Pos.shiftl p (slack p)) (e - Z.of_N (slack p)) = true.
Proof.
  intros Hp He. apply bounded_spec. rewrite digits2_pos_shiftl.
  pose proof (digits_le_53 p Hp) as Hd.
  unfold slack. rewrite Z2N.id by lia. lia.
Qed.

(** The value decides the double: the same number with its mantissa shifted
    rounds to the same double. *)
Lemma round_normal s p e n :
  Z.pos p < 2 ^ 53 → -1021 <= e <= 971 →
  binary_round prec emax s (Pos.shiftl p n) (e - Z.of_N n) = normal s p e.
Proof.
  intros Hp He. pose proof (normal_bounded p e Hp He) as Hb. unfold normal.
  destruct (N.le_gt_cases (slack p) n) as [Hle|Hgt].
  - replace (Pos.shiftl p n) with (Pos.shiftl (Pos.shiftl p (slack p)) (n - slack p))
      by (rewrite shiftl_shiftl; f_equal; lia).
    replace (e - Z.of_N n) with (e - Z.of_N (slack p) - Z.of_N (n - slack p)) by lia.
    apply round_exact_down, Hb.
  - replace (Pos.shiftl p (slack p)) with (Pos.shiftl (Pos.shiftl p n) (slack p - n)) in *
      by (rewrite shiftl_shiftl; f_equal; lia).
    replace (e - Z.of_N (slack p)) with (e - Z.of_N n - Z.of_N (slack p - n)) in * by lia.
    apply round_exact_up, Hb.
Qed.

Lemma round_aux_normal s p e n :
  Z.pos p < 2 ^ 53 → -1021 <= e <= 971 → (slack p <= n)%N →
  binary_round_aux prec emax s (Z.pos (Pos.shiftl p n)) (e - Z.of_N n) loc_Exact
  = normal s p e.
Proof.
  intros Hp He Hle. pose proof (normal_bounded p e Hp He) as Hb. unfold normal.
  replace (Pos.shiftl p n) with (Pos.shiftl (Pos.shiftl p (slack p)) (n - slack p))
    by (rewrite shiftl_shiftl; f_equal; lia).
  replace (e - Z.of_N n) with (e - Z.of_N (slack p) - Z.of_N (n - slack p)) by lia.
  apply round_aux_exact, Hb.
Qed.

Lemma dyadic_pos p e :
  Z.pos p < 2 ^ 53 → -1021 <= e <= 971 → dyadic (Z.pos p) e = normal false p e.
Proof.
  intros Hp He. pose proof (round_normal false p e 0 Hp He) as H.
  unfold Pos.shiftl at 1 in H. cbn [Z.of_N] in H. rewrite Z.sub_0_r in H. exact H.
Qed.

Lemma dyadic_neg p e :
  Z.pos p < 2 ^ 53 → -1021 <= e <= 971 → dyadic (Z.neg p) e = normal true p e.
Proof.
  intros Hp He. pose proof (round_normal true p e 0 Hp He) as H.
  unfold Pos.shiftl at 1 in H. cbn [Z.of_N] in H. rewrite Z.sub_0_r in H. exact H.
Qed.

Lemma dyadic_shift a e n :
  Z.abs a < 2 ^ 53 → -1021 <= e <= 971 →
  dyadic (a * 2 ^ Z.of_N n) (e - Z.of_N n) = dyadic a e.
Proof.
  intros Ha He. destruct a as [|p|p]; [reflexivity| |].
  - rewrite (dyadic_pos p e) by lia.
    replace (Z.pos p * 2 ^ Z.of_N n) with (Z.pos (Pos.shiftl p n)) by apply Zpos_shiftl.
    apply round_normal; lia.
  - rewrite (dyadic_neg p e) by lia.
    replace (Z.neg p * 2 ^ Z.of_N n) with (Z.neg (Pos.shiftl p n))
      by (rewrite <- !Pos2Z.opp_pos, Zpos_shiftl; lia).
    apply round_normal; lia.
Qed.

(** *** Order *)

Lemma scaled_lt m1 e1 m2 e2 :
  bounded prec emax m1 e1 = true → bounded prec emax m2 e2 = true → e1 < e2 →
  Z.pos m1 * 2 ^ (e1 + 1074) < Z.pos m2 * 2 ^ (e2 + 1074).
Proof.
  intros [H1 _]%bounded_spec [H2 _]%bounded_spec Hlt.
  pose proof (digits2_pos_spec m1) as [_ Hhi].
  pose proof (digits2_pos_spec m2) as [Hlo _].
  assert (Hd1 : Z.pos (digits2_pos m1) <= 53) by lia.
  assert (Hd2 : Z.pos (digits2_pos m2) = 53) by lia.
  rewrite Hd2 in Hlo.
  assert (Hm1 : Z.pos m1 < 2 ^ 53).
  { eapply Z.lt_le_trans; [exact Hhi|]. apply Z.pow_le_mono_r; lia. }
  assert (Hp : 0 < 2 ^ (e1 + 1074)) by (apply Z.pow_pos_nonneg; lia).
  assert (Hq : 2 * 2 ^ (e1 + 1074) <= 2 ^ (e2 + 1074)).
  { rewrite <- Z.pow_succ_r by lia. apply Z.pow_le_mono_r; lia. }
  change (2 ^ (53 - 1)) with 4503599627370496 in Hlo.
  change (2 ^ 53) with 9007199254740992 in Hm1.
  nia.
Qed.

(** [SFcompare] on doubles is the order of their values. *)
Lemma compare_valid x y :
  valid_binary prec emax x = true → valid_binary prec emax y = true →
  isFiniteNum x = true → isFiniteNum y = true →
  SFcompare x y = Some (scaled x ?= scaled y).
Proof.
  intros Hx Hy Fx Fy.
  destruct x as [sx|sx| |sx mx ex], y as [sy|sy| |sy my ey]; try discriminate;
    cbn [SFcompare scaled valid_binary] in *.
  - reflexivity.
  - assert (0 < Z.pos my * 2 ^ (ey + 1074)).
    { apply bounded_spec in Hy. apply Z.mul_pos_pos; [lia|apply Z.pow_pos_nonneg; lia]. }
    destruct sy; cbn [cond_Zopp]; f_equal; symmetry;
      [apply Z.compare_gt_iff | apply Z.compare_lt_iff]; lia.
  - assert (0 < Z.pos mx * 2 ^ (ex + 1074)).
    { apply bounded_spec in Hx. apply Z.mul_pos_pos; [lia|apply Z.pow_pos_nonneg; lia]. }
    destruct sx; cbn [cond_Zopp]; f_equal; symmetry;
      [apply Z.compare_lt_iff | apply Z.compare_gt_iff]; lia.
  - assert (Hpx : 0 < Z.pos mx * 2 ^ (ex + 1074)).
    { apply bounded_spec in Hx. apply Z.mul_pos_pos; [lia|apply Z.pow_pos_nonneg; lia]. }
    assert (Hpy : 0 < Z.pos my * 2 ^ (ey + 1074)).
    { apply bounded_spec in Hy. apply Z.mul_pos_pos; [lia|apply Z.pow_pos_nonneg; lia]. }
    assert (Hsame : ex = ey →
              Pos.compare_cont Eq mx my
              = (Z.pos mx * 2 ^ (ex + 1074) ?= Z.pos my * 2 ^ (ey + 1074))).
    { intros <-. rewrite <- Zmult_compare_compat_r; [reflexivity|].
      apply Z.lt_gt, Z.pow_pos_nonneg; [lia|]. apply bounded_spec in Hx. lia. }
    f_equal. destruct sx, sy; cbn [cond_Zopp].
    + rewrite Z.compare_opp.
      destruct (Z.compare_spec ex ey) as [E|L|G].
      * rewrite (Hsame E). symmetry. apply Z.compare_antisym.
      * symmetry. apply Z.compare_gt_iff. apply scaled_lt; assumption.
      * symmetry. apply Z.compare_lt_iff. apply scaled_lt; assumption.
    + symmetry. apply Z.compare_lt_iff. lia.
    + symmetry. apply Z.compare_gt_iff. lia.
    + destruct (Z.compare_spec ex ey) as [E|L|G].
      * exact (Hsame E).
      * symmetry. apply Z.compare_lt_iff. apply scaled_lt; assumption.
      * symmetry. apply Z.compare_gt_iff. apply scaled_lt; assumption.
Qed.

Lemma dyadic_cases a e :
  Z.abs a < 2 ^ 53 → -1021 <= e <= 971 →
  valid_binary prec emax (dyadic a e) = true
  ∧ isFiniteNum (dyadic a e) = true
  ∧ scaled (dyadic a e) = a * 2 ^ (e + 1074).
Proof.
  intros Ha He. destruct a as [|p|p].
  - repeat split.
  - rewrite dyadic_pos by lia. unfold normal. cbn [valid_binary isFiniteNum scaled cond_Zopp].
    split; [apply normal_bounded; lia|]. split; [reflexivity|].
    rewrite Zpos_shiftl, <- Z.mul_assoc, <- Z.pow_add_r.
    + f_equal. f_equal. lia.
    + lia.
    + pose proof (digits_le_53 p ltac:(lia)). unfold slack. rewrite Z2N.id by lia. lia.
  - rewrite dyadic_neg by lia. unfold normal. cbn [valid_binary isFiniteNum scaled cond_Zopp].
    split; [apply normal_bounded; lia|]. split; [reflexivity|].
    rewrite Zpos_shiftl, <- Z.mul_assoc, <- Z.pow_add_r.
    + rewrite <- Pos2Z.opp_pos, Z.mul_opp_l. f_equal. f_equal. f_equal. lia.
    + lia.
    + pose proof (digits_le_53 p ltac:(lia)). unfold slack. rewrite Z2N.id by lia. lia.
Qed.

Lemma ltb_dyadic a b ea eb :
  Z.abs a < 2 ^ 53 → Z.abs b < 2 ^ 53 → -1021 <= ea <= 971 → -1021 <= eb <= 971 →
  SFltb (dyadic a ea) (dyadic b eb) = (a * 2 ^ (ea + 1074) <? b * 2 ^ (eb + 1074)).
Proof.
  intros Ha Hb Hea Heb.
  destruct (dyadic_cases a ea Ha Hea) as (Va & Fa & Sa).
  destruct (dyadic_cases b eb Hb Heb) as (Vb & Fb & Sb).
  unfold SFltb. rewrite (compare_valid _ _ Va Vb Fa Fb), Sa, Sb.
  unfold Z.ltb. reflexivity.
Qed.

(** *** Differences and products that are exact *)

Lemma shl_align_value m e ez :
  ez <= e → Z.pos (fst (shl_align m e ez)) = Z.pos m * 2 ^ (e - ez).
Proof.
  intros Hle. unfold shl_align. destruct (ez - e) as [|d|d] eqn:E; cbn [fst].
  - replace (e - ez) with 0 by lia. lia.
  - lia.
  - rewrite Zpos_iter_xO. f_equal. f_equal. lia.
Qed.

Lemma sub_normal sp sq p q :
  Z.pos p < 2 ^ 53 → Z.pos q < 2 ^ 53 →
  Z.abs (cond_Zopp sp (Z.pos p) - cond_Zopp sq (Z.pos q)) < 2 ^ 53 →
  SFsub prec emax (normal sp p 0) (normal sq q 0)
  = dyadic (cond_Zopp sp (Z.pos p) - cond_Zopp sq (Z.pos q)) 0.
Proof.
  intros Hp Hq Hd. unfold normal. cbn [SFsub].
  set (kp := slack p). set (kq := slack q).
  assert (Ez : Z.min (0 - Z.of_N kp) (0 - Z.of_N kq) = 0 - Z.of_N (N.max kp kq)) by lia.
  rewrite Ez. rewrite !shl_align_value by lia. rewrite !Zpos_shiftl.
  replace (cond_Zopp sp (Z.pos p * 2 ^ Z.of_N kp * 2 ^ (0 - Z.of_N kp - (0 - Z.of_N (N.max kp kq))))
           - cond_Zopp sq (Z.pos q * 2 ^ Z.of_N kq * 2 ^ (0 - Z.of_N kq - (0 - Z.of_N (N.max kp kq)))))
    with ((cond_Zopp sp (Z.pos p) - cond_Zopp sq (Z.pos q)) * 2 ^ Z.of_N (N.max kp kq)).
  - apply (dyadic_shift _ 0 (N.max kp kq)); [exact Hd | lia].
  - rewrite <- !Z.mul_assoc, <- !Z.pow_add_r by lia.
    replace (Z.of_N kp + (0 - Z.of_N kp - (0 - Z.of_N (N.max kp kq))))
      with (Z.of_N (N.max kp kq)) by lia.
    replace (Z.of_N kq + (0 - Z.of_N kq - (0 - Z.of_N (N.max kp kq))))
      with (Z.of_N (N.max kp kq)) by lia.
    destruct sp, sq; cbn [cond_Zopp]; lia.
Qed.

(** The difference of two whole numbers of milliseconds is exact. *)
Lemma sub_exact x y :
  0 <= x < 2 ^ 53 → 0 <= y < 2 ^ 53 →
  SFsub prec emax (dyadic x 0) (dyadic y 0) = dyadic (x - y) 0.
Proof.
  intros Hx Hy. destruct x as [|p|p], y as [|q|q]; try lia.
  - reflexivity.
  - rewrite (dyadic_pos q 0) by lia. change (0 - Z.pos q) with (Z.neg q).
    rewrite (dyadic_neg q 0) by lia.
    reflexivity.
  - rewrite Z.sub_0_r, (dyadic_pos p 0) by lia. reflexivity.
  - rewrite (dyadic_pos p 0), (dyadic_pos q 0) by lia.
    apply (sub_normal false false p q); cbn [cond_Zopp]; lia.
Qed.

Lemma digits_mono p r : (p <= r)%positive → Z.pos (digits2_pos p) <= Z.pos (digits2_pos r).
Proof.
  intros Hle. pose proof (digits2_pos_spec p) as [Hlo _].
  pose proof (digits2_pos_spec r) as [_ Hhi].
  assert (H : 2 ^ (Z.pos (digits2_pos p) - 1) < 2 ^ Z.pos (digits2_pos r)) by lia.
  apply Z.pow_lt_mono_r_iff in H; lia.
Qed.

Lemma mul_normal s p q ea eb :
  Z.pos p * Z.pos q < 2 ^ 53 →
  -1021 <= ea <= 971 → -1021 <= eb <= 971 → -1021 <= ea + eb <= 971 →
  SFmul prec emax (normal s p ea) (normal false q eb) = normal s (p * q) (ea + eb).
Proof.
  intros Hpq Hea Heb He. unfold normal at 1 2. cbn [SFmul].
  rewrite shiftl_mul, xorb_false_r.
  replace (ea - Z.of_N (slack p) + (eb - Z.of_N (slack q)))
    with (ea + eb - Z.of_N (slack p + slack q)) by lia.
  apply round_aux_normal; [exact Hpq | exact He |].
  pose proof (digits_mono p (p * q) ltac:(nia)). unfold slack. lia.
Qed.

(** The product of a whole number by 1.5 or 2.5, as long as it has 53 bits
    at most, is exact. *)
Lemma mul_exact a q ea eb :
  Z.pos q < 2 ^ 53 → Z.abs a * Z.pos q < 2 ^ 53 →
  -1021 <= ea <= 971 → -1021 <= eb <= 971 → -1021 <= ea + eb <= 971 →
  SFmul prec emax (dyadic a ea) (dyadic (Z.pos q) eb) = dyadic (a * Z.pos q) (ea + eb).
Proof.
  intros Hq Ha Hea Heb He. rewrite (dyadic_pos q eb) by lia.
  destruct a as [|p|p]; cbn [Z.abs] in Ha.
  - reflexivity.
  - rewrite (dyadic_pos p ea) by nia.
    rewrite mul_normal by assumption.
    change (Z.pos p * Z.pos q) with (Z.pos (p * q)).
    rewrite dyadic_pos; [reflexivity| |lia]. lia.
  - rewrite (dyadic_neg p ea) by nia.
    rewrite mul_normal by assumption.
    change (Z.neg p * Z.pos q) with (Z.neg (p * q)).
    rewrite dyadic_neg; [reflexivity| |lia]. lia.
Qed.

Lemma sub_NaN x : SFsub prec emax x S754_nan = S754_nan.
Proof. destruct x; reflexivity. Qed.

Lemma ltb_NaN x : SFltb x S754_nan = false.
Proof. destruct x; reflexivity. Qed.

Lemma inWindow_iff interval now hb :
  0 <= now < 2 ^ 53 → (∀ t, hb = Some t → 0 <= t < 2 ^ 53) → Z.abs interval <= 2 ^ 50 →
  inWindow interval now hb = true
  ↔ ∃ t, hb = Some t ∧ 3 * interval < 2 * (now - t) ∧ 2 * (now - t) < 5 * interval.
Proof.
  intros Hnow Hhb Hi. unfold inWindow. destruct hb as [t|]; cbv zeta.
  - specialize (Hhb t eq_refl).
    change (ofDecimal false 15 (-1)) with (dyadic 3 (-1)).
    change (ofDecimal false 25 (-1)) with (dyadic 5 (-1)).
    change (ofInt now) with (dyadic now 0). change (ofInt t) with (dyadic t 0).
    change (ofInt interval) with (dyadic interval 0).
    rewrite (sub_exact now t) by lia.
    rewrite !mul_exact by lia.
    rewrite !ltb_dyadic by lia.
    change (0 + -1 + 1074) with 1073. change (0 + 1074) with (Z.succ 1073).
    rewrite Z.pow_succ_r by lia.
    assert (Hc : 0 < 2 ^ 1073) by (apply Z.pow_pos_nonneg; lia).
    set (c := 2 ^ 1073) in *. clearbody c.
    split.
    + intros H. apply andb_true_iff in H as [H1 H2].
      apply Z.ltb_lt in H1. apply Z.ltb_lt in H2.
      exists t. split; [reflexivity|]. nia.
    + intros (t' & Ht & H1 & H2). injection Ht as <-.
      apply andb_true_iff. split; apply Z.ltb_lt; nia.
  - rewrite sub_NaN, ltb_NaN. split; [discriminate|]. intros (t & Ht & _). discriminate Ht.
Qed.

(** *** Hexadecimal addresses *)

(** Decide the integer tests of the goal that linear arithmetic settles. *)
Ltac ztest :=
  repeat match goal with
    | |- context [Z.eqb ?a ?b] =>
        first [ rewrite (proj2 (Z.eqb_eq a b)) by lia
              | rewrite (proj2 (Z.eqb_neq a b)) by lia ]
    | |- context [Z.leb ?a ?b] =>
        first [ rewrite (proj2 (Z.leb_le a b)) by lia
              | rewrite (proj2 (Z.leb_gt a b)) by lia ]
    | |- context [Z.ltb ?a ?b] =>
        first [ rewrite (proj2 (Z.ltb_lt a b)) by lia
              | rewrite (proj2 (Z.ltb_ge a b)) by lia ]
    end.

Lemma isHexDigit_cases c :
  isHexDigit c = true → 48 <= c <= 57 ∨ 65 <= c <= 70 ∨ 97 <= c <= 102.
Proof. unfold isHexDigit. lia. Qed.

Lemma hexDigit_facts c :
  isHexDigit c = true →
  isStrWhiteSpaceChar c = false ∧ c ≠ 45 ∧ c ≠ 43 ∧ c ≠ 120 ∧ c ≠ 88
  ∧ digitIn 16 c = Some (hexDigitValue c) ∧ 0 <= hexDigitValue c < 16.
Proof.
  intros H. apply isHexDigit_cases in H.
  unfold isStrWhiteSpaceChar, digitIn, digitValue, hexDigitValue.
  destruct H as [H|[H|H]]; ztest; cbn; ztest; repeat split; lia.
Qed.

Lemma spanDigits_hex a :
  Forall (fun c => isHexDigit c = true) a →
  spanDigits 16 a = (map hexDigitValue a, []).
Proof.
  induction 1 as [|c a Hc _ IH]; [reflexivity|].
  cbn [spanDigits map]. destruct (hexDigit_facts c Hc) as (_ & _ & _ & _ & _ & -> & _).
  rewrite IH. reflexivity.
Qed.

Lemma parseInt_address a :
  isAddress a → parseInt a 16 = ofZ false (addressValue (given a)).
Proof.
  intros (Hne & _ & Hall). unfold parseInt, addressValue.
  destruct a as [|c r]; [congruence|].
  pose proof (Forall_inv Hall) as Hc.
  destruct (hexDigit_facts c Hc) as (Hws & H45 & H43 & _).
  unfold trimStart. cbn [dropWhile]. rewrite Hws.
  unfold stripSign.
  destruct (Z.eqb_spec c 45) as [?|_]; [lia|].
  destruct (Z.eqb_spec c 43) as [?|_]; [lia|].
  change (negb (16 =? 0) && ((16 <? 2) || (36 <? 16))) with false. cbv iota.
  assert (Hp : radixPrefix 120 88 (c :: r) = None).
  { unfold radixPrefix. destruct r as [|b r]; [reflexivity|].
    pose proof (Forall_inv (Forall_inv_tail Hall)) as Hb.
    destruct (hexDigit_facts b Hb) as (_ & _ & _ & H120 & H88 & _).
    destruct (Z.eqb_spec b 120) as [?|_]; [lia|].
    destruct (Z.eqb_spec b 88) as [?|_]; [lia|].
    rewrite andb_false_r. reflexivity. }
  rewrite Hp. change (if 16 =? 0 then 10 else 16) with 16.
  rewrite (spanDigits_hex _ Hall). reflexivity.
Qed.

Lemma addressValue_range a :
  match a with given a => isAddress a | _ => True end →
  0 <= addressValue a < 65536.
Proof.
  destruct a as [| |a]; cbn [addressValue]; try lia.
  intros (_ & Hl & Hall). unfold digitsValue.
  destruct a as [|c1 [|c2 [|c3 [|c4 [|c5 a]]]]]; cbn in Hl; try lia; cbn [map fold_left];
    repeat match goal with
           | H : Forall _ (_ :: _) |- _ =>
               let Hc := fresh "Hc" in
               pose proof (Forall_inv H) as Hc; apply Forall_inv_tail in H;
               apply hexDigit_facts in Hc; destruct Hc as (_ & _ & _ & _ & _ & _ & Hc)
           end; lia.
Qed.

(** *** Writing into a buffer *)

Lemma writeBytes_spec bs : ∀ pre post,
  (length bs ≤ length post)%nat →
  writeBytes (length pre) bs (pre ++ post) = pre ++ bs ++ drop (length bs) post.
Proof.
  induction bs as [|b bs IH]; intros pre post Hl; cbn [writeBytes length].
  - rewrite drop_0. reflexivity.
  - destruct post as [|p post]; cbn in Hl; [lia|].
    rewrite insert_app_r_alt by lia. rewrite Nat.sub_diag. cbn [insert list_insert].
    replace (pre ++ b :: post) with ((pre ++ [b]) ++ post) by (rewrite <- app_assoc; reflexivity).
    replace (S (length pre)) with (length (pre ++ [b])) by (rewrite length_app; cbn; lia).
    rewrite IH by lia. rewrite <- app_assoc. reflexivity.
Qed.

Lemma header_length s msg : length (header s msg) = if multiplexed s msg then 2%nat else 0%nat.
Proof. unfold header. destruct (multiplexed s msg); reflexivity. Qed.

Lemma payload_length s msg :
  wellFormed s msg →
  (length (header s msg) + length (payload s msg) < Z.to_nat (txlength s))%nat.
Proof.
  unfold wellFormed, payload. rewrite header_length, length_map, length_take.
  destruct (multiplexed s msg); lia.
Qed.

Lemma set_shown_nil s : set_shown (shown s ++ []) s = s.
Proof. destruct s. unfold set_shown. cbn. rewrite app_nil_r. reflexivity. Qed.

Lemma parseInt_addr msg :
  match addr msg with given a => isAddress a | _ => True end →
  parseInt match addr msg with given a => a | _ => js "ffff" end 16
  = ofZ false (addressValue (addr msg)).
Proof.
  destruct (addr msg) as [| |a]; intros H; try reflexivity.
  apply parseInt_address, H.
Qed.

Lemma payload_fits s msg :
  Z.of_nat (length (header s msg)) <= txlength s →
  (length (header s msg) + length (payload s msg) ≤ Z.to_nat (txlength s))%nat.
Proof. unfold payload. rewrite length_map, length_take. lia. Qed.

(** uartWrite whenever the buffer has room for the header: the frame is
    enqueued. *)
Lemma uartWrite_enqueues msg publish s :
  Z.of_nat (length (header s msg)) <= txlength s →
  (multiplexed s msg = true → match addr msg with given a => isAddress a | _ => True end) →
  uartWrite msg publish s = Returns tt (afterWrite s msg publish).
Proof.
  intros Hroom Haddr. pose proof (payload_fits s msg Hroom) as Hpl.
  pose proof (header_length s msg) as Hh.
  unfold afterWrite, frame. set (pl := payload s msg) in *.
  assert (Epl : pl = map (fun c => Z.land c 255)
                  (take (Z.to_nat (txlength s) - length (header s msg) - 1) (str msg)))
    by reflexivity.
  clearbody pl. rewrite Hh in *.
  unfold header, debugLine, multiplexed in *.
  unfold uartWrite, Buffer_alloc, when, showMsg, modify, get, throw, asciiWrite, substr0.
  unfold mbind, M_bind, mret, M_ret.
  assert (Hpos : 0 <= txlength s) by (destruct (isServer s && negb (internal msg)); lia).
  destruct (Z.ltb_spec (txlength s) 0) as [?|_]; [lia|].
  set (n := Z.to_nat (txlength s)) in *.
  destruct (isServer s && negb (internal msg)).
  - specialize (Haddr eq_refl).
    set (lo := addressValue (addr msg) mod 256) in *.
    set (hi := addressValue (addr msg) / 256) in *.
    destruct (debugMode s); [|rewrite set_shown_nil].
    all: rewrite (parseInt_addr msg Haddr).
    all: rewrite writeUInt16LE_ok;
      [ | apply addressValue_range, Haddr | rewrite length_replicate; lia ].
    all: fold lo hi; rewrite drop_replicate; cbn [length].
    all: destruct (Nat.ltb_spec (S (S (length (replicate (n - 2) 0)))) 2) as [?|_]; [lia|].
    all: replace (Z.to_nat (txlength s - 3)) with (n - 2 - 1)%nat by lia; rewrite <- Epl.
    all: change (lo :: hi :: replicate (n - 2) 0) with ([lo; hi] ++ replicate (n - 2) 0).
    all: change 2%nat with (length [lo; hi]) at 1.
    all: rewrite writeBytes_spec by (rewrite length_replicate; cbn [length]; lia).
    all: rewrite drop_replicate; reflexivity.
  - destruct (debugMode s); [|rewrite set_shown_nil].
    all: change ((length (replicate n 0) <? 0)%nat) with false; cbv iota.
    all: replace (Z.to_nat (txlength s - 1)) with (n - 0 - 1)%nat by lia; rewrite <- Epl.
    all: pose proof (writeBytes_spec pl [] (replicate n 0)) as Hw; cbn [length app] in Hw.
    all: rewrite Hw by (rewrite length_replicate; cbn [length] in *; lia).
    all: rewrite drop_replicate, Nat.sub_0_r; reflexivity.
Qed.

Lemma uartWrite_spec msg publish s :
  wellFormed s msg → uartWrite msg publish s = Returns tt (afterWrite s msg publish).
Proof.
  intros Hwf. unfold wellFormed in Hwf.
  apply uartWrite_enqueues; rewrite ?header_length; destruct (multiplexed s msg); cbn; try lia.
  intros _. apply Hwf.
Qed.

(** uartWrite at an internal message: raw text, whatever the mode. *)
Lemma uartWrite_raw msg publish s :
  internal msg = true → 0 <= txlength s →
  uartWrite msg publish s = Returns tt (afterWrite s msg publish).
Proof.
  intros Hi Hl.
  assert (Hm : multiplexed s msg = false).
  { unfold multiplexed. rewrite Hi. apply andb_false_r. }
  apply uartWrite_enqueues; [|rewrite Hm; discriminate].
  rewrite header_length, Hm. exact Hl.
Qed.


Section UartProperties.

Variable Buffer_toString : list Z → list Z.
Variable JSON_stringify : list Z → list Z.

Lemma uartSender_idle err s :
  uartSendBuffer s = [] ∨ port s = None → uartSender Buffer_toString err s = Returns tt s.
Proof.
  intros H. unfold uartSender, get, mbind, M_bind.
  destruct (uartSendBuffer s) as [|[txBuf publish] rest], (port s); try reflexivity.
  destruct H; discriminate.
Qed.

Lemma uartSender_sends err s txBuf publish rest p :
  uartSendBuffer s = (txBuf, publish) :: rest → port s = Some p →
  (isServer s = true → (2 ≤ length txBuf)%nat) →
  ∃ lines,
    uartSender Buffer_toString err s
    = Returns tt (set_shown (shown s ++ lines)
                    (set_written (written s ++ [txBuf]) (set_uartSendBuffer rest s)))
    ∧ (∀ m, err = Some m → lines = [(js "error", js "UART write error: " ++ m)]).
Proof.
  intros Hq Hp Hlen. unfold uartSender, get, mbind, M_bind. rewrite Hq, Hp.
  unfold modify, port_write, writeDone, get, showMsg, modify, mbind, M_bind, mret, M_ret.
  destruct (isServer s) eqn:Es.
  - specialize (Hlen eq_refl). destruct txBuf as [|b0 [|b1 txBuf]]; cbn in Hlen; try lia.
    cbn [readUInt16LE]. unfold mret, M_ret. cbn.
    destruct err as [m|].
    + eexists. split; [reflexivity|]. intros m' [= <-]. reflexivity.
    + rewrite Es. cbn [negb]. rewrite Hp. cbn [from_option].
      destruct (publish && isOpen p); [|destruct publish].
      * eexists. split; [reflexivity|]. discriminate.
      * eexists. split; [reflexivity|]. discriminate.
      * exists []. split; [|discriminate]. 
        f_equal. unfold set_shown. cbn. rewrite app_nil_r. reflexivity.
  - cbn. destruct err as [m|].
    + eexists. split; [reflexivity|]. intros m' [= <-]. reflexivity.
    + rewrite Es. cbn [negb]. eexists. split; [reflexivity|]. discriminate.
Qed.

Lemma frame_ext s s' msg :
  isServer s' = isServer s → txlength s' = txlength s → frame s' msg = frame s msg.
Proof.
  intros H1 H2. unfold frame, payload, header, multiplexed. rewrite H1, H2. reflexivity.
Qed.

Lemma frames_ext s s' es :
  isServer s' = isServer s → txlength s' = txlength s → frames s' es = frames s es.
Proof.
  intros H1 H2. induction es as [|[msg pub|err|p] es IH]; cbn [frames]; try assumption.
  - reflexivity.
  - rewrite IH, (frame_ext s s') by assumption. reflexivity.
Qed.

Lemma frame_length s msg :
  wellFormed s msg → length (frame s msg) = Z.to_nat (txlength s).
Proof.
  intros Hwf. pose proof (payload_length s msg Hwf). unfold frame.
  rewrite !length_app, length_replicate. lia.
Qed.

Lemma roomy_wellFormed s msg :
  roomy s → match addr msg with given a => isAddress a | _ => True end → wellFormed s msg.
Proof.
  unfold roomy, wellFormed, multiplexed. intros Hr Ha.
  destruct (isServer s); cbn [andb]; [destruct (negb (internal msg))|]; try split; try lia;
    assumption.
Qed.

Lemma fifo_invariant es : ∀ s,
  queueReady s → Forall (eventOk s) es →
  ∃ s' k,
    run Buffer_toString es s = Returns tt s'
    ∧ (k ≤ ticks es)%nat
    ∧ written s' = written s ++ take k (map fst (uartSendBuffer s) ++ frames s es)
    ∧ map fst (uartSendBuffer s') = drop k (map fst (uartSendBuffer s) ++ frames s es)
    ∧ (port s ≠ None → forallb isTick es = true →
       k = Nat.min (length es) (length (uartSendBuffer s)))
    ∧ timers s' = timers s.
Proof.
  induction es as [|e es IH]; intros s Hq Hok.
  - exists s, 0%nat. cbn. rewrite !app_nil_r. repeat split; try reflexivity; lia.
  - pose proof (Forall_inv Hok) as He. apply Forall_inv_tail in Hok.
    cbn [run]. unfold mbind, M_bind. destruct e as [msg pub|err|p]; cbn [step fire].
    + destruct He as [Hroom Haddr].
      rewrite uartWrite_spec by (apply roomy_wellFormed; assumption).
      destruct (IH (afterWrite s msg pub)) as (s' & k & Hrun & Hk & Hw & Hb & _ & Ht);
        [ | exact Hok |].
      { intros Hs. cbn. apply Forall_app. split; [exact (Hq Hs)|].
        constructor; [|constructor]. cbn [fst].
        rewrite frame_length by (apply roomy_wellFormed; assumption).
        unfold roomy in Hroom. cbn in Hs. rewrite Hs in Hroom. lia. }
      exists s', k. rewrite Hrun. cbn [ticks frames forallb isTick].
      rewrite (frames_ext s (afterWrite s msg pub)) in Hw, Hb by reflexivity.
      cbn in Hw, Hb. rewrite map_app in Hw, Hb. cbn [map fst] in Hw, Hb.
      rewrite <- app_assoc in Hw, Hb. cbn [app] in Hw, Hb.
      repeat split; try assumption. discriminate.
    + destruct (uartSendBuffer s) as [|[txBuf publish] rest] eqn:Eq.
      * rewrite uartSender_idle by (left; exact Eq).
        destruct (IH s Hq Hok) as (s' & k & Hrun & Hk & Hw & Hb & Hd & Ht).
        exists s', k. rewrite Hrun. rewrite Eq in Hw, Hb, Hd. cbn [ticks frames forallb isTick andb].
        repeat split; try assumption; [lia|].
        intros Hp Htk. rewrite (Hd Hp Htk). cbn [length]. lia.
      * destruct (port s) as [p|] eqn:Ep.
        -- destruct (uartSender_sends err s txBuf publish rest p Eq Ep) as (lines & Hs & _).
           { intros Hsrv. specialize (Hq Hsrv). rewrite Eq in Hq.
             exact (Forall_inv Hq). }
           rewrite Hs. set (s1 := set_shown _ _).
           destruct (IH s1) as (s' & k & Hrun & Hk & Hw & Hb & Hd & Ht);
             [ | exact Hok |].
           { intros Hsrv. specialize (Hq Hsrv). rewrite Eq in Hq.
             exact (Forall_inv_tail Hq). }
           exists s', (S k). rewrite Hrun.
           rewrite (frames_ext s s1) in Hw, Hb by reflexivity.
           cbn [ticks frames forallb isTick andb map fst app take drop length].
           cbn in Hw, Hb, Hd. rewrite <- app_assoc in Hw. cbn [app] in Hw.
           repeat split; try assumption; [lia|].
           intros _ Htk. rewrite Hd; [lia | rewrite Ep; discriminate | exact Htk].
        -- rewrite uartSender_idle by (right; exact Ep).
           destruct (IH s Hq Hok) as (s' & k & Hrun & Hk & Hw & Hb & Hd & Ht).
           exists s', k. rewrite Hrun. rewrite Eq in Hw, Hb. cbn [ticks frames].
           repeat split; try assumption; [lia|]. intros Hp. congruence.
    + unfold modify.
      destruct (IH (set_port p s)) as (s' & k & Hrun & Hk & Hw & Hb & _ & Ht);
        [exact Hq | exact Hok |].
      exists s', k. rewrite Hrun. cbn [ticks frames forallb isTick].
      rewrite (frames_ext s (set_port p s)) in Hw, Hb by reflexivity.
      repeat split; try assumption. discriminate.
Qed.

Lemma ticks_app es1 es2 : ticks (es1 ++ es2) = (ticks es1 + ticks es2)%nat.
Proof.
  induction es1 as [|[msg pub|err|p] es1 IH]; cbn [app ticks]; try assumption.
  - reflexivity.
  - rewrite IH. reflexivity.
Qed.

(** The interval timer fires once a turn, and nobody else fires it. *)
Lemma ticks_turns n calls errs :
  (∀ i, ticks (calls i) = 0%nat) → ticks (turns n calls errs) = n.
Proof.
  intros Hc. induction n as [|n IH]; [reflexivity|].
  cbn [turns]. rewrite !ticks_app, IH, Hc. cbn. lia.
Qed.

Lemma turns_quiet n calls errs :
  (∀ i, calls i = []) →
  forallb isTick (turns n calls errs) = true ∧ length (turns n calls errs) = n.
Proof.
  intros Hc. induction n as [|n [IH1 IH2]]; [split; reflexivity|].
  cbn [turns]. rewrite Hc. cbn [app]. split.
  - rewrite forallb_app, IH1. reflexivity.
  - rewrite length_app, IH2. cbn. lia.
Qed.

(** By the clock, [T / 50] firings in [T] ms: the delay is the one the
    module registers when it is loaded, [setInterval(uartSender, 50)]. *)
Lemma timeline_ticks T ts calls errs :
  head ts = Some uartSenderService →
  timeline T ts calls errs = turns (Z.to_nat (T / 50)) calls errs ++ calls (Z.to_nat (T / 50)).
Proof.
  destruct ts as [|tm ts]; intros [= ->]. reflexivity.
Qed.

(** C4. Outbound delivery is strict FIFO, one send per firing of the 50 ms
    interval timer at most: whatever messages are enqueued by uartWrite,
    whenever uartSender runs and whenever the port comes and goes, the buffers
    handed to the port are the first [k] of the enqueued frames, in the order
    they were enqueued, the others are still queued in that order, and [k] is
    at most the number of firings; with a port present and nothing but
    firings, every firing sends the frame at the head of the queue until it is
    empty. The timers are as they were: the interval is neither cancelled nor
    set again. And by the clock: when the turns of the event loop are those
    of the first [T] ms after the module was loaded, with uartSender called by
    the timer of [setInterval(uartSender, 50)] and by nobody else, at most
    [T / 50] frames have been sent, whatever was enqueued and whenever; and
    exactly [T / 50], if as many were waiting, the port is there and nothing
    else happens. *)
Theorem uartSender_fifo (es : list event) (s : state) :
  queueReady s → Forall (eventOk s) es →
  ∃ s' k,
    run Buffer_toString es s = Returns tt s'
    ∧ (k ≤ ticks es)%nat
    ∧ written s' = written s ++ take k (map fst (uartSendBuffer s) ++ frames s es)
    ∧ map fst (uartSendBuffer s') = drop k (map fst (uartSendBuffer s) ++ frames s es)
    ∧ (port s ≠ None → forallb isTick es = true →
       k = Nat.min (length es) (length (uartSendBuffer s)))
    ∧ timers s' = timers s
    ∧ (∀ T calls errs,
         head (timers s) = Some uartSenderService →
         (∀ i, ticks (calls i) = 0%nat) →
         es = timeline T (timers s) calls errs →
         (k ≤ Z.to_nat (T / 50))%nat
         ∧ (port s ≠ None → (∀ i, calls i = []) →
            k = Nat.min (Z.to_nat (T / 50)) (length (uartSendBuffer s)))).
Proof.
  intros Hq Hok.
  destruct (fifo_invariant es s Hq Hok) as (s' & k & Hrun & Hk & Hw & Hb & Hd & Ht).
  exists s', k. repeat apply conj; try assumption.
  intros T calls errs Hload Hcalls Hes. rewrite (timeline_ticks T _ calls errs Hload) in Hes.
  split.
  - rewrite Hes, ticks_app, (ticks_turns _ calls errs Hcalls), Hcalls in Hk. lia.
  - intros Hp Hnone. rewrite Hnone, app_nil_r in Hes.
    destruct (turns_quiet (Z.to_nat (T / 50)) calls errs Hnone) as [Hall Hlen].
    rewrite <- Hes in Hall, Hlen. rewrite (Hd Hp Hall), Hlen. reflexivity.
Qed.

Lemma forallb_isTick errs : forallb isTick (map Tick errs) = true.
Proof. induction errs; cbn; auto. Qed.

Lemma Forall_eventOk_ticks s errs : Forall (eventOk s) (map Tick errs).
Proof. induction errs; constructor; cbn; auto. Qed.

Lemma frames_ticks s errs : frames s (map Tick errs) = [].
Proof. induction errs; cbn; auto. Qed.

(** C5. A failed serial write is logged and its message dropped: the run of
    uartSender ends normally with the error shown, the message off the queue
    (not put back), the interval timer and the port as they were; the ticks
    that follow go on with the rest of the queue and hand the failed message
    to the port no second time. *)
Theorem write_failure_drops (s : state) (txBuf : list Z) (publish : bool)
    (rest : list (list Z * bool)) (p : serialport) (m : list Z) :
  uartSendBuffer s = (txBuf, publish) :: rest → port s = Some p → queueReady s →
  ∃ s',
    uartSender Buffer_toString (Some m) s = Returns tt s'
    ∧ shown s' = shown s ++ [(js "error", js "UART write error: " ++ m)]
    ∧ uartSendBuffer s' = rest
    ∧ written s' = written s ++ [txBuf]
    ∧ timers s' = timers s ∧ port s' = port s
    ∧ ∀ errs, ∃ s'',
        run Buffer_toString (map Tick errs) s' = Returns tt s''
        ∧ written s'' = written s ++ [txBuf] ++ take (length errs) (map fst rest).
Proof.
  intros Hq Hp Hr.
  destruct (uartSender_sends (Some m) s txBuf publish rest p Hq Hp) as (lines & Hs & Hl).
  { intros Hsrv. specialize (Hr Hsrv). rewrite Hq in Hr. exact (Forall_inv Hr). }
  rewrite (Hl m eq_refl) in Hs. eexists. split; [exact Hs|].
  set (s' := set_shown _ _).
  repeat split; try reflexivity.
  intros errs.
  destruct (fifo_invariant (map Tick errs) s') as (s'' & k & Hrun & _ & Hw & _ & Hk & _).
  { intros Hsrv. specialize (Hr Hsrv). rewrite Hq in Hr. exact (Forall_inv_tail Hr). }
  { apply Forall_eventOk_ticks. }
  exists s''. split; [exact Hrun|].
  rewrite Hw, frames_ticks, app_nil_r. cbn [written s' set_shown set_written].
  rewrite <- app_assoc. f_equal. f_equal. cbn [uartSendBuffer set_uartSendBuffer].
  rewrite Hk; [| cbn; rewrite Hp; discriminate | apply forallb_isTick ].
  change (uartSendBuffer s') with rest. rewrite length_map.
  destruct (Nat.min_spec (length errs) (length rest)) as [[? ->]|[? ->]]; [reflexivity|].
  rewrite !take_ge by (rewrite ?length_map; lia). reflexivity.
Qed.


Lemma uartWrite_internal msg publish s :
  internal msg = true →
  (txlength s < 0 ∧ uartWrite msg publish s = Throws RangeError s)
  ∨ (0 <= txlength s
     ∧ ∃ buf, uartWrite msg publish s
              = Returns tt (set_uartSendBuffer (uartSendBuffer s ++ [(buf, publish)])
                              (set_shown (shown s ++ debugLine s msg) s))).
Proof.
  intros Hi. unfold uartWrite, Buffer_alloc, when, showMsg, modify, get, throw, asciiWrite.
  unfold mbind, M_bind, mret, M_ret. rewrite Hi, andb_false_r. cbn [negb].
  destruct (Z.ltb_spec (txlength s) 0) as [Hn|Hn]; [left; split; [lia|reflexivity]|].
  right. split; [lia|]. unfold debugLine.
  destruct (debugMode s); cbn; eexists; try reflexivity.
  rewrite set_shown_nil. reflexivity.
Qed.


Lemma debugLine_info s msg l : l ∈ debugLine s msg → fst l = js "info".
Proof.
  unfold debugLine. destruct (debugMode s); intros H.
  - apply list_elem_of_singleton in H. subst l. reflexivity.
  - inversion H.
Qed.

Lemma suspectLine_not_debug s msg : suspectLine ∉ debugLine s msg.
Proof. intros H. apply debugLine_info in H. discriminate H. Qed.

(** What [heartbeat] shows: the suspect line if the window test holds, then
    what [uartWrite] shows. *)
Lemma heartbeat_shown now s :
  ∃ extra,
    shown (final (heartbeat now s))
    = shown s ++ (if inWindow (heartbeatInterval s) now (hbTime s) then [suspectLine] else [])
              ++ extra
    ∧ suspectLine ∉ extra.
Proof.
  unfold heartbeat, get, when, showMsg, modify, mbind, M_bind.
  fold probe.
  destruct (inWindow (heartbeatInterval s) now (hbTime s)).
  - set (s1 := set_shown _ s).
    destruct (uartWrite_internal probe false s1 eq_refl) as [[_ ->]|[_ [buf ->]]].
    + exists []. split; [reflexivity|]. inversion 1.
    + exists (debugLine s1 probe). split; [|apply suspectLine_not_debug].
      cbn. rewrite <- app_assoc. reflexivity.
  - unfold mret, M_ret.
    destruct (uartWrite_internal probe false s eq_refl) as [[_ ->]|[_ [buf ->]]].
    + exists []. split; [cbn; rewrite app_nil_r; reflexivity|]. inversion 1.
    + exists (debugLine s probe). split; [reflexivity|apply suspectLine_not_debug].
Qed.

(** C1. For times that [Date.now()] can return (whole milliseconds below
    2^53) and an interval of 2^50 ms at most, on which the double arithmetic
    of the check is exact: a call of heartbeat shows the "possibly crashed"
    line if and only if a heartbeat time is recorded and the time elapsed
    since lies strictly between 1.5 and 2.5 times the heartbeat interval;
    when the elapsed time is exactly 1.5 or exactly 2.5 times the interval
    the line is not shown. *)
Theorem heartbeat_suspect_window (now : Z) (s : state) :
  0 <= now < 2 ^ 53 →
  (∀ t, hbTime s = Some t → 0 <= t < 2 ^ 53) →
  Z.abs (heartbeatInterval s) <= 2 ^ 50 →
  ∃ lines,
    shown (final (heartbeat now s)) = shown s ++ lines
    ∧ (suspectLine ∈ lines
       ↔ ∃ t, hbTime s = Some t
              ∧ 3 * heartbeatInterval s < 2 * (now - t)
              ∧ 2 * (now - t) < 5 * heartbeatInterval s)
    ∧ (∀ t, hbTime s = Some t →
            2 * (now - t) = 3 * heartbeatInterval s
            ∨ 2 * (now - t) = 5 * heartbeatInterval s →
            suspectLine ∉ lines).
Proof.
  intros Hnow Hhb Hi.
  destruct (heartbeat_shown now s) as (extra & Hs & Hn).
  pose proof (inWindow_iff (heartbeatInterval s) now (hbTime s) Hnow Hhb Hi) as Hw.
  eexists. split; [exact Hs|].
  destruct (inWindow (heartbeatInterval s) now (hbTime s)).
  - split.
    + split; [intros _; apply Hw; reflexivity | intros _; left].
    + intros t Ht Hb. destruct (proj1 Hw eq_refl) as (t' & Ht' & H1 & H2).
      rewrite Ht in Ht'. injection Ht' as <-. lia.
  - cbn [app]. split.
    + split; [intros H; contradiction | intros H; apply Hw in H; discriminate].
    + intros _ _ _. exact Hn.
Qed.

(** What [heartbeat] does, the line of the check apart: the probe is handed
    to [uartWrite]. *)
Lemma heartbeat_spec now s :
  0 <= txlength s →
  heartbeat now s
  = Returns tt
      (afterWrite
         (set_shown (shown s ++ (if inWindow (heartbeatInterval s) now (hbTime s)
                                 then [suspectLine] else [])) s)
         probe false).
Proof.
  intros Hl. unfold heartbeat, get, when, showMsg, modify, mbind, M_bind, mret, M_ret.
  fold probe.
  destruct (inWindow (heartbeatInterval s) now (hbTime s)).
  - apply uartWrite_raw; [reflexivity | exact Hl].
  - rewrite set_shown_nil. apply uartWrite_raw; [reflexivity | exact Hl].
Qed.

(** What [heartbeat] leaves of the state: all but the lines shown and the
    queue. *)
Lemma heartbeat_hbTime now s : hbTime (final (heartbeat now s)) = hbTime s.
Proof.
  unfold heartbeat, get, when, showMsg, modify, mbind, M_bind, mret, M_ret. fold probe.
  destruct (inWindow (heartbeatInterval s) now (hbTime s));
    match goal with |- context [uartWrite probe false ?s1] =>
      destruct (uartWrite_internal probe false s1 eq_refl) as [[_ ->]|[_ [buf ->]]]
    end; reflexivity.
Qed.

(** C2, as the code has it. Every heartbeat leaves the recorded heartbeat
    time as it was: it reads [uart.hbTime] and never assigns it; while the
    transmit length is not negative it ends normally with the frame of the
    probe, not to be published, at the back of the send queue. *)
Theorem heartbeat_keeps_hbTime (now : Z) (s : state) :
  hbTime (final (heartbeat now s)) = hbTime s
  ∧ (0 <= txlength s →
     ∃ s', heartbeat now s = Returns tt s'
           ∧ uartSendBuffer s' = uartSendBuffer s ++ [(frame s probe, false)]).
Proof.
  split; [apply heartbeat_hbTime|]. intros Hl.
  rewrite (heartbeat_spec now s Hl). eexists. split; [reflexivity|].
  cbn [afterWrite uartSendBuffer set_uartSendBuffer set_shown].
  rewrite (frame_ext s (set_shown _ s)) by reflexivity. reflexivity.
Qed.


Lemma ack_test data :
  looseEq (data !! 0%nat) (data !! 1%nat) && looseEq (data !! 1%nat) (Some 254)
  && looseEq (data !! 2%nat) (Some 1) = true ↔ isAck data.
Proof.
  unfold isAck, looseEq.
  destruct (data !! 0%nat) as [a|], (data !! 1%nat) as [b|], (data !! 2%nat) as [c|];
    rewrite ?andb_true_iff, ?Z.eqb_eq; split; try (intros [[? ?] ?]); try (intros (? & ? & ?));
    try discriminate; try congruence; repeat split; congruence.
Qed.

Lemma parseChallenge_cases data s :
  ∃ s', parseChallenge Buffer_toString JSON_stringify data s = Returns false s'
    ∧ ((isAck data ∧ responded s' = true ∧ blacklist (finder s') = [])
       ∨ (¬ isAck data ∧ responded s' = responded s ∧ finder s' = finder s)).
Proof.
  pose proof (ack_test data) as Hack.
  unfold parseChallenge, get, when, showMsg, clearBlacklist, modify, mbind, M_bind, mret, M_ret.
  destruct (looseEq (data !! 0%nat) (data !! 1%nat) && looseEq (data !! 1%nat) (Some 254)
            && looseEq (data !! 2%nat) (Some 1)).
  - destruct (debugMode s); eexists; (split; [reflexivity|]); left;
      (split; [apply Hack; reflexivity | split; reflexivity]).
  - destruct (debugMode s); eexists; (split; [reflexivity|]); right;
      (split; [intros H; apply Hack in H; discriminate | split; reflexivity]).
Qed.

(** C6. parseChallenge sets the responded flag and clears the blacklist
    exactly when the buffer starts with the bytes 0xFE, 0xFE, 1; at every
    other buffer the flag and the blacklist are as they were. *)
Theorem parseChallenge_ack (data : list Z) (s : state) :
  let s' := final (parseChallenge Buffer_toString JSON_stringify data s) in
  (isAck data ∧ responded s' = true ∧ blacklist (finder s') = [])
  ∨ (¬ isAck data ∧ responded s' = responded s
     ∧ blacklist (finder s') = blacklist (finder s)).
Proof.
  destruct (parseChallenge_cases data s) as (s' & -> & [H|(Hn & Hr & Hf)]); cbn [final].
  - left. exact H.
  - right. rewrite Hf. auto.
Qed.

(** C9. parseChallenge returns false at every buffer, one that matches the
    acknowledgement pattern included. *)
Theorem parseChallenge_returns_false (data : list Z) (s : state) :
  ∃ s', parseChallenge Buffer_toString JSON_stringify data s = Returns false s'.
Proof.
  destruct (parseChallenge_cases data s) as (s' & H & _). exists s'. exact H.
Qed.

(** C7. With room for the challenge in the transmit buffer, sendChallenge
    puts the challenge at the back of the queue, clears the responded flag
    and registers a 3000 ms timeout. When the timeout fires with the flag set,
    nothing changes. When it fires with the flag still clear and a port
    present, the next candidate port is asked for and the port is closed (if
    the driver reports an error for the close, that error is shown). *)
Theorem sendChallenge_timeout (s : state) :
  1 <= txlength s →
  (∃ s', sendChallenge s = Returns tt s'
         ∧ uartSendBuffer s' = uartSendBuffer s ++ [(frame s challenge, false)]
         ∧ responded s' = false
         ∧ timers s' = timers s ++ [setTimeout challengeTimeout_cb 3000])
  ∧ (∀ u err, responded u = true →
       fire Buffer_toString challengeTimeout_cb err u = Returns tt u)
  ∧ (∀ u p, responded u = false → port u = Some p →
       (∃ u', fire Buffer_toString challengeTimeout_cb None u = Returns tt u'
              ∧ nextPortRequests (finder u') = S (nextPortRequests (finder u))
              ∧ port u' = Some {| isOpen := false |})
       ∧ (∀ e, ∃ u', fire Buffer_toString challengeTimeout_cb (Some e) u = Returns tt u'
              ∧ nextPortRequests (finder u') = S (nextPortRequests (finder u))
              ∧ (js "error", js "Port close error: " ++ e) ∈ shown u')).
Proof.
  intros Hl. split; [|split].
  - unfold sendChallenge, mbind, M_bind.
    change (uartWrite _ false s) with (uartWrite challenge false s).
    rewrite uartWrite_spec.
    + unfold modify. eexists. split; [reflexivity|]. repeat split.
    + unfold wellFormed, multiplexed. cbn [internal challenge negb].
      rewrite andb_false_r. exact Hl.
  - intros u err Hr. unfold fire, challengeTimeout, get, mbind, M_bind. rewrite Hr.
    reflexivity.
  - intros u p Hr Hp. split; [|intros e];
      unfold fire, challengeTimeout, get, showMsg, nextPort, port_close, modify, mbind, M_bind,
        mret, M_ret; rewrite Hr, Hp; cbn [negb];
      eexists; (split; [reflexivity|]); split; try reflexivity.
    cbn [shown set_shown]. apply elem_of_app. left. apply elem_of_app. right.
    left.
Qed.

End UartProperties.

(** ** The properties at concrete inputs *)

(** The interface configuration: direct mode, 80 bytes; the gateway's hub
    mode: an address in front, 17 bytes. *)
Example frame_direct :
  frame (connected false 80) hello = js "hello" ++ replicate 75 0.
Proof. vm_compute. reflexivity. Qed.

Example frame_multiplexed :
  frame (connected true 17) hello = [162; 1] ++ js "hello" ++ replicate 10 0.
Proof. vm_compute. reflexivity. Qed.

Example frame_broadcast_truncated :
  frame (connected true 8)
    {| str := js "a long message"; addr := null; internal := false |}
  = [255; 255] ++ js "a lon" ++ [0].
Proof. vm_compute. reflexivity. Qed.

Example busy_run :
  written (final (run (fun b => b) busy (connected true 17)))
  = [frame (connected true 17) hello; frame (connected true 17) probe;
     frame (connected true 17) challenge].
Proof. vm_compute. reflexivity. Qed.

Example window_inside : inWindow 15000 22501 (Some 0) = true ∧ inWindow 15000 37499 (Some 0) = true.
Proof. split; reflexivity. Qed.

Example window_boundaries :
  inWindow 15000 22500 (Some 0) = false ∧ inWindow 15000 37500 (Some 0) = false.
Proof. split; reflexivity. Qed.

(** Past 2^53 / 3 ms the product by 1.5 is rounded: 4503599627370500 ms
    after the heartbeat are more than 1.5 times 3002399751580333 ms, and the
    check, comparing doubles, says they are not. *)
Example window_rounding :
  3 * 3002399751580333 < 2 * 4503599627370500
  ∧ inWindow 3002399751580333 4503599627370500 (Some 0) = false.
Proof. split; [lia | vm_compute; reflexivity]. Qed.

Lemma heartbeat_suspect_window_witness :
  suspectLine ∈ shown (final (heartbeat 30000 (connected false 80))).
Proof.
  destruct (heartbeat_suspect_window 30000 (connected false 80)) as (lines & Hs & Hiff & _).
  - lia.
  - intros t [= <-]. lia.
  - cbn. lia.
  - rewrite Hs. apply elem_of_app. right. apply Hiff.
    exists 0. split; [reflexivity|]. cbn. lia.
Defined.

(** C2, as the specification states it, fails: a heartbeat sent at time
    15000, after one recorded at time 0, does not leave 15000 recorded. *)
Lemma heartbeat_records_counterexample :
  hbTime (final (heartbeat 15000 (connected false 80))) ≠ Some 15000.
Proof. vm_compute. discriminate. Qed.

Lemma heartbeat_keeps_hbTime_witness :
  hbTime (final (heartbeat 15000 (connected false 80))) = Some 0
  ∧ ∃ s', heartbeat 15000 (connected false 80) = Returns tt s'
          ∧ uartSendBuffer s' = [([0; 0; 1] ++ js "HB" ++ replicate 75 0, false)].
Proof.
  destruct (heartbeat_keeps_hbTime 15000 (connected false 80)) as [Hkept Hsent].
  split; [exact Hkept|]. apply Hsent. cbn. lia.
Defined.

Lemma hello_isAddress : isAddress (js "01a2").
Proof.
  split; [discriminate|]. split; [cbn; lia|]. repeat constructor.
Defined.



Lemma busy_ok : Forall (eventOk attached) busy.
Proof.
  unfold busy.
  constructor; [split; [cbn; lia | exact hello_isAddress]|].
  constructor; [split; [cbn; lia | exact I]|].
  constructor; [exact I|].
  constructor; [split; [cbn; lia | exact I]|].
  repeat (constructor; [exact I|]). constructor.
Defined.

Lemma uartSender_fifo_witness :
  ∃ s' k,
    run (fun b => b) busy attached = Returns tt s'
    ∧ (k ≤ Z.to_nat (200 / 50))%nat
    ∧ written s' = take k [frame attached hello; frame attached probe; frame attached challenge]
    ∧ map fst (uartSendBuffer s')
      = drop k [frame attached hello; frame attached probe; frame attached challenge]
    ∧ timers s' = [uartSenderService].
Proof.
  destruct (uartSender_fifo (fun b => b) busy attached)
    as (s' & k & H1 & _ & H3 & H4 & _ & H5 & H6).
  - intros _. constructor.
  - exact busy_ok.
  - exists s', k. repeat split; try assumption.
    apply (H6 200 busy_calls busy_errs); [reflexivity | | reflexivity].
    intros [|[|i]]; reflexivity.
Defined.

Lemma write_failure_drops_witness :
  ∃ s',
    uartSender (fun b => b) (Some (js "EIO")) waiting = Returns tt s'
    ∧ shown s' = [(js "error", js "UART write error: EIO")]
    ∧ uartSendBuffer s' = [(frame (connected false 17) hello, true)]
    ∧ written s' = [frame (connected false 17) probe]
    ∧ timers s' = [uartSenderService]
    ∧ port s' = Some {| isOpen := true |}
    ∧ ∀ errs, ∃ s'',
        run (fun b => b) (map Tick errs) s' = Returns tt s''
        ∧ written s'' = [frame (connected false 17) probe]
                        ++ take (length errs) [frame (connected false 17) hello].
Proof.
  refine (write_failure_drops (fun b => b) waiting (frame (connected false 17) probe) false
            [(frame (connected false 17) hello, true)] {| isOpen := true |} (js "EIO")
            eq_refl eq_refl _).
  intros Hs. discriminate Hs.
Defined.

Lemma sendChallenge_timeout_witness :
  (∃ s', sendChallenge (connected false 80) = Returns tt s'
         ∧ uartSendBuffer s' = [(frame (connected false 80) challenge, false)]
         ∧ responded s' = false
         ∧ timers s' = [uartSenderService; setTimeout challengeTimeout_cb 3000])
  ∧ fire (fun b => b) challengeTimeout_cb None (connected false 80)
    = Returns tt (connected false 80).
Proof.
  destruct (sendChallenge_timeout (fun b => b) (connected false 80)) as (H1 & H2 & _);
    [cbn; lia|].
  split; [exact H1|]. apply H2. reflexivity.
Defined.

Lemma parseChallenge_ack_witness :
  let s' := final (parseChallenge (fun b => b) (fun t => t) (254 :: 254 :: 1 :: js "OK")
                     (set_responded false (connected false 80))) in
  responded s' = true ∧ blacklist (finder s') = [].
Proof.
  destruct (parseChallenge_ack (fun b => b) (fun t => t) (254 :: 254 :: 1 :: js "OK")
              (set_responded false (connected false 80))) as [H|[Hn _]].
  - exact (proj2 H).
  - exfalso. apply Hn. repeat split.
Defined.

(** ** Further properties of the schema registries *)

Lemma ofZ_notNaN v : 0 <= v < 2 ^ 52 → isNaN (ofZ false v) = false.
Proof.
  intros Hv. destruct v as [|p|p]; [reflexivity| |lia].
  pose proof (digits2_pos_bound p 52 ltac:(lia)) as Hd.
  rewrite (ofZ_exact p (53 - digits2_pos p)) by lia. reflexivity.
Qed.

Lemma spanDigits_values R s :
  Forall (fun v => 0 <= v < R) (fst (spanDigits R s))
  ∧ (length (fst (spanDigits R s)) ≤ length s)%nat.
Proof.
  induction s as [|c s [IH1 IH2]]; cbn [spanDigits]; [split; [constructor|cbn; lia]|].
  unfold digitIn. destruct (digitValue c) as [v|] eqn:Ev; [|split; [constructor|cbn; lia]].
  destruct (Z.ltb_spec v R); [|split; [constructor|cbn; lia]].
  destruct (spanDigits R s) as [ds rest]. cbn [fst length] in *. split; [|lia].
  constructor; [|exact IH1]. split; [|assumption].
  unfold digitValue in Ev.
  repeat match type of Ev with (if ?c then _ else _) = _ => destruct c eqn:? end;
    try discriminate; injection Ev as <-; lia.
Qed.

Lemma digitsValue_bound ds :
  Forall (fun v => 0 <= v < 16) ds → (length ds ≤ 4)%nat → 0 <= digitsValue 16 ds < 65536.
Proof.
  intros Hall Hl. unfold digitsValue.
  destruct ds as [|d1 [|d2 [|d3 [|d4 [|d5 ds]]]]]; cbn in Hl; try lia; cbn [fold_left];
    repeat match goal with
           | H : Forall _ (_ :: _) |- _ =>
               let Hc := fresh "Hc" in
               pose proof (Forall_inv H) as Hc; apply Forall_inv_tail in H; cbn beta in Hc
           end; lia.
Qed.

Lemma jseqb_false a b : jseqb a b = false ↔ a ≠ b.
Proof. unfold jseqb. apply bool_decide_eq_false. Qed.

Lemma jseqb_true a b : jseqb a b = true ↔ a = b.
Proof. unfold jseqb. apply bool_decide_eq_true. Qed.

(** What the numeric parse functions accept. *)
Lemma numberField_inv what d v :
  Config.numberField what d = Fulfilled v →
  v = VNum (Number d) ∧ isNaN (Number d) = false ∧ d ≠ [].
Proof.
  unfold Config.numberField, newPromise, If, resolve, reject.
  destruct (isNaN (Number d)) eqn:En, (jseqb d []) eqn:Ee; cbn; intros H;
    try discriminate. injection H as <-. apply jseqb_false in Ee. auto.
Qed.

Lemma floatField_inv what d v :
  Gateway.floatField what d = Fulfilled v →
  v = VNum (parseFloat d) ∧ isNaN (parseFloat d) = false.
Proof.
  unfold Gateway.floatField, newPromise, If, resolve, reject.
  destruct (isNaN (parseFloat d)) eqn:En; cbn; intros H; try discriminate.
  injection H as <-. auto.
Qed.

Lemma gateway_time_inv d v :
  Gateway.time_fun d = Fulfilled v →
  v = VNum (parseInt d 0) ∧ isNaN (parseInt d 0) = false.
Proof.
  unfold Gateway.time_fun, newPromise, If, resolve, reject.
  destruct (isNaN (parseInt d 0)) eqn:En; cbn; intros H; try discriminate.
  injection H as <-. auto.
Qed.

Lemma increment_inv (f : list Z → settled) (mk : jsnum → value) what1 what2 d v :
  (∀ d, f d = let a := Number d in
              newPromise (fun p =>
                resolve (mk a)
                  (If (negb (isFiniteNum a)) (reject (what2 a))
                     (If (isNaN a || jseqb d []) (reject (what1 d)) p)))) →
  f d = Fulfilled v →
  v = mk (Number d) ∧ isFiniteNum (Number d) = true ∧ d ≠ [].
Proof.
  intros Hf. rewrite Hf. cbv zeta. unfold newPromise, If, resolve, reject.
  destruct (isNaN (Number d)) eqn:En, (jseqb d []) eqn:Ee,
    (isFiniteNum (Number d)) eqn:Ef; cbn; intros H; try discriminate.
  injection H as <-. apply jseqb_false in Ee. auto.
Qed.

Lemma EAT_inv d v :
  Config.EAT_fun d = Fulfilled v →
  v = VArr [VNum (Number d); VNum (S754_zero false); VNum (S754_zero false)]
  ∧ isFiniteNum (Number d) = true ∧ d ≠ [].
Proof.
  apply (increment_inv Config.EAT_fun
           (fun a => VArr [VNum a; VNum (S754_zero false); VNum (S754_zero false)])
           (fun d => js "Error: Non-numeric EAT increment: " ++ d)
           (fun a => js "Error: Tamagotchi cannot EAT the amount: " ++ nonFiniteToString a)).
  reflexivity.
Qed.

Lemma EXERCISE_inv d v :
  Config.EXERCISE_fun d = Fulfilled v →
  v = VArr [VNum (S754_zero false); VNum (Number d); VNum (S754_zero false)]
  ∧ isFiniteNum (Number d) = true ∧ d ≠ [].
Proof.
  apply (increment_inv Config.EXERCISE_fun
           (fun a => VArr [VNum (S754_zero false); VNum a; VNum (S754_zero false)])
           (fun d => js "Error: Non-numeric EXERCISE increment: " ++ d)
           (fun a => js "Error: Tamagotchi cannot EXERCISE the amount: " ++ nonFiniteToString a)).
  reflexivity.
Qed.

Lemma PET_inv d v :
  Config.PET_fun d = Fulfilled v →
  v = VArr [VNum (S754_zero false); VNum (S754_zero false); VNum (Number d)]
  ∧ isFiniteNum (Number d) = true ∧ d ≠ [].
Proof.
  apply (increment_inv Config.PET_fun
           (fun a => VArr [VNum (S754_zero false); VNum (S754_zero false); VNum a])
           (fun d => js "Error: Non-numeric PET increment: " ++ d)
           (fun a => js "Error: Tamagotchi cannot be PET the amount: " ++ nonFiniteToString a)).
  reflexivity.
Qed.

Lemma finite_notNaN a : isFiniteNum a = true → isNaN a = false.
Proof. destruct a; cbn; congruence. Qed.

(** What ACTIVATE accepts. *)
Lemma ACTIVATE_inv d v :
  Config.ACTIVATE_fun d = Fulfilled v →
  ∃ x y z, split 59 d = [x; y; z]
           ∧ isNaN (Number x) = false ∧ isNaN (Number y) = false ∧ isNaN (Number z) = false
           ∧ v = VArr [VNum (Number x); VNum (Number y); VNum (Number z)].
Proof.
  unfold Config.ACTIVATE_fun, newPromise. rewrite ACTIVATE_guard_false.
  unfold If, resolve, reject.
  destruct (Z.eqb_spec (Z.of_nat (length (map Number (split 59 d)))) 3) as [E|E];
    cbn [negb];
    destruct (existsb isNaN (map Number (split 59 d)) || jseqb d []) eqn:Eg;
    try discriminate.
  rewrite length_map in E.
  destruct (split 59 d) as [|x [|y [|z [|w l]]]] eqn:Es; cbn [length] in E; try lia.
  cbn [map existsb] in Eg. apply orb_false_iff in Eg as [Eg _].
  rewrite !orb_false_iff in Eg. destruct Eg as (Hx & Hy & Hz & _).
  intros [= <-]. exists x, y, z. auto 10.
Qed.

Lemma noNaN_registry_case (f : list Z → settled) d v :
  f d = Fulfilled v →
  (∃ what, f = Config.numberField what) ∨ (∃ what, f = Gateway.floatField what)
  ∨ f = Gateway.time_fun ∨ f = Config.EAT_fun ∨ f = Config.EXERCISE_fun
  ∨ f = Config.PET_fun ∨ f = Config.ACTIVATE_fun →
  noNaN v = true.
Proof.
  intros H [[w ->]|[[w ->]|[->|[->|[->|[->| ->]]]]]].
  - apply numberField_inv in H as (-> & Hn & _). cbn. rewrite Hn. reflexivity.
  - apply floatField_inv in H as (-> & Hn). cbn. rewrite Hn. reflexivity.
  - apply gateway_time_inv in H as (-> & Hn). cbn. rewrite Hn. reflexivity.
  - apply EAT_inv in H as (-> & Hn & _).
    apply finite_notNaN in Hn. cbn. rewrite Hn. reflexivity.
  - apply EXERCISE_inv in H as (-> & Hn & _).
    apply finite_notNaN in Hn. cbn. rewrite Hn. reflexivity.
  - apply PET_inv in H as (-> & Hn & _).
    apply finite_notNaN in Hn. cbn. rewrite Hn. reflexivity.
  - apply ACTIVATE_inv in H as (x & y & z & _ & Hx & Hy & Hz & ->).
    cbn. rewrite Hx, Hy, Hz. reflexivity.
Qed.

(** X2. The Tamagotchi increments EAT, EXERCISE and PET resolve only with a
    finite number, in the slot of the action and with zeros in the two other
    slots; the raw value is not empty. *)
Theorem increments_finite (d : list Z) (v : value) :
  (Config.EAT_fun d = Fulfilled v →
     v = VArr [VNum (Number d); VNum (S754_zero false); VNum (S754_zero false)]
     ∧ isFiniteNum (Number d) = true ∧ d ≠ [])
  ∧ (Config.EXERCISE_fun d = Fulfilled v →
     v = VArr [VNum (S754_zero false); VNum (Number d); VNum (S754_zero false)]
     ∧ isFiniteNum (Number d) = true ∧ d ≠ [])
  ∧ (Config.PET_fun d = Fulfilled v →
     v = VArr [VNum (S754_zero false); VNum (S754_zero false); VNum (Number d)]
     ∧ isFiniteNum (Number d) = true ∧ d ≠ []).
Proof.
  split; [apply EAT_inv | split; [apply EXERCISE_inv | apply PET_inv]].
Qed.

(** X1. No parse function of either registry ever resolves with NaN, alone
    or inside an array. *)
Theorem registry_never_NaN (desc : descriptor) (d : list Z) (v : value) :
  desc ∈ registry → fun_ desc d = Fulfilled v → noNaN v = true.
Proof.
  intros Hin H. apply list_elem_of_In in Hin. unfold registry in Hin.
  cbn [Config.dataTypes Gateway.dataTypes app In] in Hin.
  repeat (destruct Hin as [<- | Hin];
    [ cbn [fun_ Config.field] in H;
      first
        [ apply (noNaN_registry_case _ d v H);
          first [ left; eexists; reflexivity
                | right; left; eexists; reflexivity
                | do 2 right; left; reflexivity
                | do 3 right; left; reflexivity
                | do 4 right; left; reflexivity
                | do 5 right; left; reflexivity
                | do 6 right; reflexivity ]
        | unfold Config.id_fun, Config.session_fun, Config.ping_fun, Config.MSG_fun,
            Gateway.id_fun, Gateway.event_fun, newPromise, IfElse, resolve, reject in H;
          try match type of H with (if ?c then _ else _) = _ => destruct c end;
          try discriminate; injection H as <-; reflexivity ] | ]).
  destruct Hin.
Qed.

Lemma registry_never_NaN_witness :
  noNaN (VArr [VNum (S754_infinity false); VNum (ofZ false 1); VNum (ofRatio true 5 2)]) = true.
Proof.
  apply (registry_never_NaN
           (Config.field "ACTIVATE" "ACTIVATE" ["tamaActions"%string] false Config.ACTIVATE_fun)
           (js "Infinity;1;-2.5")).
  - apply list_elem_of_In. unfold registry. apply in_or_app. left.
    do 7 right. left. reflexivity.
  - vm_compute. reflexivity.
Defined.

Lemma increments_finite_witness :
  isFiniteNum (Number (js "2.5")) = true.
Proof.
  exact (proj1 (proj2 (proj1 (increments_finite (js "2.5")
           (VArr [VNum (Number (js "2.5")); VNum (S754_zero false); VNum (S754_zero false)]))
           eq_refl))).
Defined.

(** *** Splitting *)

Lemma split_length sep d : length (split sep d) = S (count_occ Z.eq_dec d sep).
Proof.
  induction d as [|c d IH]; [reflexivity|]. cbn [split count_occ].
  destruct (Z.eqb_spec c sep) as [->|Hne].
  - destruct (Z.eq_dec sep sep); [|congruence]. cbn [length]. rewrite IH. reflexivity.
  - destruct (Z.eq_dec c sep); [congruence|].
    destruct (split sep d) as [|w ws]; cbn [length] in *; lia.
Qed.

(** X3. ACTIVATE accepts only an input with exactly two [;]: any other
    count is rejected with "ACTIVATE needs three arguments", whatever the
    components are; and what it accepts has three components none of which
    converts to NaN, with which it resolves. *)
Theorem ACTIVATE_two_separators (d : list Z) (v : value) :
  (count_occ Z.eq_dec d 59 ≠ 2%nat →
     Config.ACTIVATE_fun d = Rejected (js "Error: ACTIVATE needs three arguments."))
  ∧ (Config.ACTIVATE_fun d = Fulfilled v →
     count_occ Z.eq_dec d 59 = 2%nat
     ∧ ∃ x y z, split 59 d = [x; y; z]
         ∧ isNaN (Number x) = false ∧ isNaN (Number y) = false ∧ isNaN (Number z) = false
         ∧ v = VArr [VNum (Number x); VNum (Number y); VNum (Number z)]).
Proof.
  split.
  - intros Hc. unfold Config.ACTIVATE_fun, newPromise. rewrite ACTIVATE_guard_false.
    unfold If, resolve, reject. rewrite length_map, split_length.
    destruct (Z.eqb_spec (Z.of_nat (S (count_occ Z.eq_dec d 59))) 3) as [E|E]; [lia|].
    cbn [negb]. destruct (existsb isNaN (map Number (split 59 d)) || jseqb d []); reflexivity.
  - intros H. destruct (ACTIVATE_inv d v H) as (x & y & z & Hs & Hr).
    split; [|exists x, y, z; auto].
    pose proof (split_length 59 d) as Hl. rewrite Hs in Hl. cbn in Hl. lia.
Qed.

Lemma ACTIVATE_two_separators_witness :
  Config.ACTIVATE_fun (js "1;2") = Rejected (js "Error: ACTIVATE needs three arguments.")
  ∧ count_occ Z.eq_dec (js "Infinity;1;-2.5") 59 = 2%nat.
Proof.
  split.
  - apply (proj1 (ACTIVATE_two_separators (js "1;2") (VBool true))). vm_compute. lia.
  - exact (proj1 (proj2 (ACTIVATE_two_separators (js "Infinity;1;-2.5")
             (VArr [VNum (S754_infinity false); VNum (ofZ false 1); VNum (ofRatio true 5 2)]))
             eq_refl)).
Defined.

(** *** Trimming *)

Lemma dropWhile_all {A} (p : A → bool) l : Forall (fun x => p x = true) l → dropWhile p l = [].
Proof. induction 1 as [|x l Hx _ IH]; cbn; [reflexivity|]. rewrite Hx. exact IH. Qed.

Lemma dropWhile_app_all {A} (p : A → bool) l r :
  Forall (fun x => p x = true) l → dropWhile p (l ++ r) = dropWhile p r.
Proof. induction 1 as [|x l Hx _ IH]; cbn; [reflexivity|]. rewrite Hx. exact IH. Qed.

Lemma dropWhile_fixed_app {A} (p : A → bool) l r :
  l ≠ [] → dropWhile p l = l → dropWhile p (l ++ r) = l ++ r.
Proof.
  destruct l as [|x l]; [congruence|]. intros _. cbn.
  destruct (p x) eqn:E; [|reflexivity].
  intros H. exfalso.
  assert (Hl : ∀ m : list A, (length (dropWhile p m) ≤ length m)%nat).
  { induction m as [|y m IHm]; cbn; [lia|]. destruct (p y); cbn; lia. }
  specialize (Hl l). rewrite H in Hl. cbn in Hl. lia.
Qed.

Lemma trim_padded pre core post :
  Forall (fun c => isStrWhiteSpaceChar c = true) pre →
  Forall (fun c => isStrWhiteSpaceChar c = true) post →
  trimmed core → trim (pre ++ core ++ post) = core.
Proof.
  intros Hpre Hpost [Hs He]. unfold trim, trimStart, trimEnd.
  rewrite dropWhile_app_all by exact Hpre.
  destruct core as [|c core].
  - cbn [app]. rewrite (dropWhile_all _ post Hpost). reflexivity.
  - rewrite dropWhile_fixed_app by (congruence || exact Hs).
    rewrite rev_app_distr.
    rewrite dropWhile_app_all by (apply Forall_rev; exact Hpost).
    rewrite He. apply rev_involutive.
Qed.

Lemma hex_trimmed d : Forall (fun c => isHexDigit c = true) d → trimmed (48 :: 120 :: d).
Proof.
  intros Hall. split; [reflexivity|].
  destruct (rev d) as [|l r] eqn:Er.
  - apply (f_equal (@rev Z)) in Er. rewrite rev_involutive in Er. subst d. reflexivity.
  - cbn [rev]. rewrite <- !app_assoc. cbn [rev] in *. rewrite Er. cbn [app dropWhile].
    assert (Hl : isHexDigit l = true).
    { apply Forall_rev in Hall. rewrite Er in Hall. exact (Forall_inv Hall). }
    destruct (hexDigit_facts l Hl) as (-> & _). reflexivity.
Qed.

Lemma Number_hex d :
  d ≠ [] → Forall (fun c => isHexDigit c = true) d →
  Number (js "0x" ++ d) = ofZ false (digitsValue 16 (map hexDigitValue d)).
Proof.
  intros Hne Hall. unfold Number.
  pose proof (trim_padded [] (48 :: 120 :: d) [] (Forall_nil _) (Forall_nil _)
                (hex_trimmed d Hall)) as Ht.
  rewrite app_nil_r in Ht. cbn [app] in Ht.
  change (js "0x" ++ d) with (48 :: 120 :: d). rewrite Ht.
  cbv zeta. cbn [radixPrefix]. change ((48 =? 48) && ((120 =? 120) || (120 =? 88))) with true.
  cbv iota. unfold wholeDigits. rewrite (spanDigits_hex d Hall).
  destruct d as [|c d]; [congruence|]. reflexivity.
Qed.

(** X4. The interface's id parser accepts every string of one to four hex
    characters and resolves with it unchanged; and whatever it accepts has
    between one and four code units and is resolved unchanged. *)
Theorem id_accepts_addresses (d : list Z) (v : value) :
  (isAddress d → Config.id_fun d = Fulfilled (VStr d))
  ∧ (Config.id_fun d = Fulfilled v → v = VStr d ∧ (1 ≤ length d ≤ 4)%nat).
Proof.
  unfold Config.id_fun, newPromise, IfElse, resolve, reject. split.
  - intros (Hne & Hl & Hall). rewrite (Number_hex d Hne Hall).
    rewrite ofZ_notNaN.
    + destruct (Z.leb_spec (Z.of_nat (length d)) 4) as [_|?]; [|lia].
      rewrite (proj2 (jseqb_false d []) Hne). reflexivity.
    + pose proof (addressValue_range (given d) (conj Hne (conj Hl Hall))) as Hr.
      cbn [addressValue] in Hr. lia.
  - destruct (negb (isNaN (Number (js "0x" ++ d)))); cbn [andb]; [|discriminate].
    destruct (Z.leb_spec (Z.of_nat (length d)) 4) as [Hl|_]; cbn [andb]; [|discriminate].
    destruct (jseqb d []) eqn:Ee; cbn [negb]; [discriminate|].
    intros [= <-]. apply jseqb_false in Ee. split; [reflexivity|].
    destruct d; [congruence|]. cbn [length] in *. lia.
Qed.

Lemma id_accepts_addresses_witness : Config.id_fun (js "01A2") = Fulfilled (VStr (js "01A2")).
Proof.
  apply (proj1 (id_accepts_addresses (js "01A2") (VStr (js "01A2")))).
  split; [discriminate|]. split; [cbn; lia|]. repeat constructor.
Defined.

Lemma parseInt_hexstart c r :
  isHexDigit c = true → radixPrefix 120 88 (c :: r) = None →
  parseInt (c :: r) 16 = ofZ false (digitsValue 16 (fst (spanDigits 16 (c :: r))))
  ∧ fst (spanDigits 16 (c :: r)) ≠ [].
Proof.
  intros Hc Hp. destruct (hexDigit_facts c Hc) as (Hws & H45 & H43 & _ & _ & Hd & _).
  unfold parseInt, trimStart. cbn [dropWhile]. rewrite Hws. unfold stripSign.
  destruct (Z.eqb_spec c 45) as [?|_]; [lia|].
  destruct (Z.eqb_spec c 43) as [?|_]; [lia|].
  change (negb (16 =? 0) && ((16 <? 2) || (36 <? 16))) with false. cbv iota.
  rewrite Hp. change (if 16 =? 0 then 10 else 16) with 16.
  cbn [spanDigits]. rewrite Hd. destruct (spanDigits 16 r) as [ds rest]. cbn [fst].
  split; [reflexivity|discriminate].
Qed.

(** X5. The gateway's id parser looks at the start of the string only: a
    string of at most four code units that starts with a hex character (and
    not with [0x]) is accepted and resolved unchanged, whatever follows the
    first character. *)
Theorem gateway_id_checks_start (c : Z) (r : list Z) :
  isHexDigit c = true → (length (c :: r) ≤ 4)%nat → radixPrefix 120 88 (c :: r) = None →
  Gateway.id_fun (c :: r) = Fulfilled (VStr (c :: r)).
Proof.
  intros Hc Hl Hp. destruct (parseInt_hexstart c r Hc Hp) as [Hv _].
  unfold Gateway.id_fun, newPromise, IfElse, resolve. rewrite Hv.
  destruct (spanDigits_values 16 (c :: r)) as [Hall Hlen].
  rewrite ofZ_notNaN.
  - destruct (Z.leb_spec (Z.of_nat (length (c :: r))) 4) as [_|?]; [reflexivity|lia].
  - pose proof (digitsValue_bound _ Hall ltac:(lia)). lia.
Qed.

Lemma gateway_id_checks_start_witness :
  Gateway.id_fun (js "1zzz") = Fulfilled (VStr (js "1zzz")).
Proof.
  apply (gateway_id_checks_start 49 (js "zzz")); [reflexivity | cbn; lia | reflexivity].
Defined.

Lemma trimmed_nil : trimmed [].
Proof. split; reflexivity. Qed.

(** X6. A raw value of white space only, not empty, is a number for the
    interface (its numeric fields resolve with 0: the guard against the empty
    string does not see it) and none for the gateway (its numeric fields
    reject it). *)
Theorem blank_number (what : string) (d : list Z) :
  d ≠ [] → Forall (fun c => isStrWhiteSpaceChar c = true) d →
  Config.numberField what d = Fulfilled (VNum (S754_zero false))
  ∧ Gateway.floatField what d
    = Rejected (js ("Error: Non-numeric " ++ what ++ ": ") ++ d).
Proof.
  intros Hne Hws. split.
  - unfold Config.numberField, newPromise, If, resolve, reject, Number.
    pose proof (trim_padded d [] [] Hws (Forall_nil _) trimmed_nil) as Ht.
    rewrite app_nil_r in Ht. rewrite Ht. cbv zeta iota.
    rewrite (proj2 (jseqb_false d []) Hne). reflexivity.
  - unfold Gateway.floatField, newPromise, If, resolve, reject, parseFloat, trimStart.
    rewrite (dropWhile_all _ d Hws). reflexivity.
Qed.

Lemma blank_number_witness :
  Config.numberField "temperature" (js "  ") = Fulfilled (VNum (S754_zero false))
  ∧ Gateway.floatField "temperature" (js "  ")
    = Rejected (js "Error: Non-numeric temperature:   ").
Proof.
  apply (blank_number "temperature" (js "  ")); [discriminate|repeat constructor].
Defined.

Lemma includes_iff l d : includes l d = true ↔ d ∈ l.
Proof.
  unfold includes. rewrite existsb_exists, list_elem_of_In. split.
  - intros (x & Hin & He). apply jseqb_true in He. subst. exact Hin.
  - intros Hin. exists d. split; [exact Hin|]. apply jseqb_true. reflexivity.
Qed.

Lemma movements_trimmed name : name ∈ movements → trimmed name.
Proof.
  intros H. apply list_elem_of_In in H. cbn in H.
  destruct H as [<-|[<-|[<-|[<-|[]]]]]; split; reflexivity.
Qed.

(** X7. The gateway's event parser resolves with one of the four movement
    names and nothing else; white space around the name is dropped, so a
    padded name is accepted as the bare name. *)
Theorem event_normalised (d : list Z) (v : value) :
  (∀ name pre post,
      name ∈ movements →
      Forall (fun c => isStrWhiteSpaceChar c = true) pre →
      Forall (fun c => isStrWhiteSpaceChar c = true) post →
      Gateway.event_fun (pre ++ name ++ post) = Fulfilled (VStr name))
  ∧ (Gateway.event_fun d = Fulfilled v →
     ∃ name, name ∈ movements ∧ v = VStr name ∧ trim d = name).
Proof.
  split.
  - intros name pre post Hn Hpre Hpost.
    unfold Gateway.event_fun, newPromise, IfElse, resolve.
    rewrite (trim_padded pre name post Hpre Hpost (movements_trimmed name Hn)).
    change [js "UP"; js "DOWN"; js "LEFT"; js "RIGHT"] with movements.
    rewrite (proj2 (includes_iff movements name) Hn). reflexivity.
  - unfold Gateway.event_fun, newPromise, IfElse, resolve, reject.
    change [js "UP"; js "DOWN"; js "LEFT"; js "RIGHT"] with movements.
    destruct (includes movements (trim d)) eqn:Ei; [|discriminate].
    intros [= <-]. exists (trim d). apply includes_iff in Ei. auto.
Qed.

Lemma event_normalised_witness :
  Gateway.event_fun (js " UP" ++ [10]) = Fulfilled (VStr (js "UP")).
Proof.
  apply (proj1 (event_normalised [] (VBool true)) (js "UP") (js " ") [10]).
  - apply list_elem_of_In. left. reflexivity.
  - repeat constructor.
  - repeat constructor.
Defined.

(** X8. In each registry the short names are pairwise distinct, and every
    topic a descriptor names is one of the registry's declared topics. *)
Theorem registries_consistent :
  NoDup (map shortName Config.dataTypes)
  ∧ NoDup (map shortName Gateway.dataTypes)
  ∧ Forall (fun f => Forall (fun t => t ∈ interface_topics) (topics f)) Config.dataTypes
  ∧ Forall (fun f => Forall (fun t => t ∈ gateway_topics) (topics f)) Gateway.dataTypes.
Proof.
  repeat split;
    match goal with
    | |- ?P => let d := constr:(_ : Decision P) in apply (@bool_decide_unpack P d)
    end; vm_compute; exact I.
Qed.

(** ** Further properties of lib/uart.js *)

(** *** The address, written and read back *)

(** X9. In multiplexed mode, with room for the header and an address that
    is one (or none, or null), the number [readUInt16LE] reads from the buffer
    that uartWrite has put at the back of the queue is the number uartWrite
    parsed from the address text: what uartSender reads is what uartWrite
    wrote. *)
Theorem address_read_back (msg : message) (publish : bool) (s : state) :
  multiplexed s msg = true → 2 <= txlength s →
  match addr msg with given a => isAddress a | _ => True end →
  ∃ s' buf n,
    uartWrite msg publish s = Returns tt s'
    ∧ uartSendBuffer s' = uartSendBuffer s ++ [(buf, publish)]
    ∧ (∀ u, readUInt16LE buf u = Returns n u)
    ∧ parseInt (match addr msg with given a => a | _ => js "ffff" end) 16 = ofZ false n
    ∧ 0 <= n < 65536.
Proof.
  intros Hm Hl Ha.
  exists (afterWrite s msg publish), (frame s msg), (addressValue (addr msg)).
  split; [|split; [reflexivity|split; [|split]]].
  - apply uartWrite_enqueues; [rewrite header_length, Hm; exact Hl | intros _; exact Ha].
  - intros u. unfold frame, header. rewrite Hm. cbn [app readUInt16LE].
    unfold mret, M_ret. f_equal.
    pose proof (Z.div_mod (addressValue (addr msg)) 256 ltac:(lia)). lia.
  - apply parseInt_addr, Ha.
  - apply addressValue_range, Ha.
Qed.

Lemma address_read_back_witness :
  ∃ s' buf n,
    uartWrite hello true (connected true 17) = Returns tt s'
    ∧ uartSendBuffer s' = [(buf, true)]
    ∧ (∀ u, readUInt16LE buf u = Returns n u)
    ∧ parseInt (js "01a2") 16 = ofZ false n
    ∧ 0 <= n < 65536.
Proof.
  apply (address_read_back hello true (connected true 17)).
  - reflexivity.
  - cbn. lia.
  - exact hello_isAddress.
Defined.

Lemma zrange_In n : ∀ z v, z <= v < z + Z.of_nat n → In v (zrange n z).
Proof.
  induction n as [|n IH]; intros z v Hv; [lia|]. cbn [zrange].
  destruct (Z.eq_dec z v) as [->|Hne]; [left; reflexivity|].
  right. apply IH. lia.
Qed.

Lemma addressText_table : forallb addressTextOk (zrange (Z.to_nat 65536) 0) = true.
Proof. vm_compute. reflexivity. Qed.

(** X10. The text [uartSender] shows for a 16-bit address has four hex
    characters, and read as [uartWrite] reads an address it is that address
    again. *)
Theorem address_text_round_trip (v : Z) :
  0 <= v < 65536 →
  length (addressText v) = 4%nat
  ∧ isAddress (addressText v)
  ∧ addressValue (given (addressText v)) = v
  ∧ parseInt (addressText v) 16 = ofZ false v.
Proof.
  intros Hv.
  assert (Hin : In v (zrange (Z.to_nat 65536) 0)) by (apply zrange_In; lia).
  pose proof (proj1 (forallb_forall _ _) addressText_table v Hin) as Hok.
  unfold addressTextOk in Hok. cbv zeta in Hok.
  apply andb_true_iff in Hok as [Hok Hval]. apply andb_true_iff in Hok as [Hlen Hhex].
  apply Nat.eqb_eq in Hlen. apply Z.eqb_eq in Hval.
  assert (Ha : isAddress (addressText v)).
  { split; [intros E; rewrite E in Hlen; discriminate|]. split; [lia|].
    apply Forall_forall. intros c Hc.
    exact (proj1 (forallb_forall _ _) Hhex c Hc). }
  repeat split; try assumption; try apply Ha.
  rewrite (parseInt_address _ Ha). cbn [addressValue]. rewrite Hval. reflexivity.
Qed.

Lemma address_text_round_trip_witness :
  addressText 418 = js "01a2" ∧ addressValue (given (addressText 418)) = 418.
Proof.
  split; [reflexivity|].
  exact (proj1 (proj2 (proj2 (address_text_round_trip 418 ltac:(lia))))).
Defined.

(** *** Addresses that are none *)

Lemma parseInt_hex a :
  a ≠ [] → Forall (fun c => isHexDigit c = true) a →
  parseInt a 16 = ofZ false (digitsValue 16 (map hexDigitValue a)).
Proof.
  intros Hne Hall. unfold parseInt.
  destruct a as [|c r]; [congruence|].
  pose proof (Forall_inv Hall) as Hc.
  destruct (hexDigit_facts c Hc) as (Hws & H45 & H43 & _).
  unfold trimStart. cbn [dropWhile]. rewrite Hws.
  unfold stripSign.
  destruct (Z.eqb_spec c 45) as [?|_]; [lia|].
  destruct (Z.eqb_spec c 43) as [?|_]; [lia|].
  change (negb (16 =? 0) && ((16 <? 2) || (36 <? 16))) with false. cbv iota.
  assert (Hp : radixPrefix 120 88 (c :: r) = None).
  { unfold radixPrefix. destruct r as [|b r]; [reflexivity|].
    pose proof (Forall_inv (Forall_inv_tail Hall)) as Hb.
    destruct (hexDigit_facts b Hb) as (_ & _ & _ & H120 & H88 & _).
    destruct (Z.eqb_spec b 120) as [?|_]; [lia|].
    destruct (Z.eqb_spec b 88) as [?|_]; [lia|].
    rewrite andb_false_r. reflexivity. }
  rewrite Hp. change (if 16 =? 0 then 10 else 16) with 16.
  rewrite (spanDigits_hex _ Hall). reflexivity.
Qed.

Lemma digits2_pos_lower p (n : nat) :
  2 ^ Z.of_nat n <= Z.pos p → (n < Pos.to_nat (digits2_pos p))%nat.
Proof.
  revert n. induction p as [p IH|p IH|]; intros n Hn; cbn [digits2_pos];
    rewrite ?Pos2Nat.inj_succ.
  - destruct n as [|n]; [lia|]. rewrite Nat2Z.inj_succ, Z.pow_succ_r in Hn by lia.
    specialize (IH n). lia.
  - destruct n as [|n]; [lia|]. rewrite Nat2Z.inj_succ, Z.pow_succ_r in Hn by lia.
    specialize (IH n). lia.
  - destruct n as [|n]; [cbn; lia|]. rewrite Nat2Z.inj_succ, Z.pow_succ_r in Hn by lia.
    assert (0 < 2 ^ Z.of_nat n) by (apply Z.pow_pos_nonneg; lia). lia.
Qed.

(** A double above 65535: what [writeUInt16LE] refuses. *)
Lemma above_u16 v :
  65535 < v < 2 ^ 52 → SFltb (ofZ false 65535) (ofZ false v) = true.
Proof.
  intros Hv. destruct v as [|p|p]; try lia.
  pose proof (digits2_pos_bound p 52 ltac:(lia)) as Hhi.
  pose proof (digits2_pos_lower p 16 ltac:(cbn; lia)) as Hlo.
  set (k := (53 - digits2_pos p)%positive).
  rewrite (ofZ_exact p k) by lia.
  rewrite (ofZ_exact 65535 37 eq_refl).
  unfold SFltb, SFcompare.
  destruct (Z.compare_spec (Z.neg 37) (Z.neg k)) as [E|L|G]; try reflexivity; lia.
Qed.

(** X11. In multiplexed mode an address of hex characters whose value is
    above 0xFFFF makes uartWrite throw a RangeError: nothing is enqueued and
    nothing is written. *)
Theorem uartWrite_address_out_of_range (msg : message) (publish : bool) (s : state)
    (a : list Z) :
  multiplexed s msg = true → addr msg = given a →
  Forall (fun c => isHexDigit c = true) a →
  65535 < digitsValue 16 (map hexDigitValue a) < 2 ^ 52 →
  ∃ s', uartWrite msg publish s = Throws RangeError s'
        ∧ uartSendBuffer s' = uartSendBuffer s ∧ written s' = written s.
Proof.
  intros Hm Ha Hall Hv. unfold multiplexed in Hm.
  assert (Hne : a ≠ []) by (intros ->; cbn in Hv; lia).
  unfold uartWrite, Buffer_alloc, when, showMsg, modify, get, throw.
  unfold mbind, M_bind, mret, M_ret. rewrite Hm, Ha.
  destruct (txlength s <? 0); [eexists; split; [reflexivity|split; reflexivity]|].
  unfold writeUInt16LE. rewrite (parseInt_hex a Hne Hall), (above_u16 _ Hv). cbn [orb].
  destruct (debugMode s); eexists; (split; [reflexivity|split; reflexivity]).
Qed.

Lemma uartWrite_address_out_of_range_witness :
  ∃ s', uartWrite {| str := js "hello"; addr := given (js "12345"); internal := false |}
          true (connected true 17) = Throws RangeError s'
        ∧ uartSendBuffer s' = [] ∧ written s' = [].
Proof.
  apply (uartWrite_address_out_of_range _ true (connected true 17) (js "12345")).
  - reflexivity.
  - reflexivity.
  - repeat constructor.
  - vm_compute. split; reflexivity.
Defined.

Lemma writeUInt16LE_NaN buf s :
  (2 ≤ length buf)%nat → writeUInt16LE NaN buf s = Returns (0 :: 0 :: drop 2 buf) s.
Proof.
  intros Hl. unfold writeUInt16LE. cbn [SFltb SFcompare ofZ NaN orb].
  change (SFltb (binary_round prec emax false 65535 0) S754_nan) with false.
  change (SFltb S754_nan (S754_zero false)) with false. cbn [orb].
  destruct (Z.ltb_spec (Z.of_nat (length buf)) 2) as [?|_]; [lia|].
  destruct buf as [|b0 [|b1 buf]]; cbn in Hl; try lia. reflexivity.
Qed.

(** X12. In multiplexed mode an address [parseInt] cannot read (the empty
    string, one that does not start with a hex character) is no error: the
    frame is sent with the address bytes 0, 0. *)
Theorem uartWrite_unreadable_address (msg : message) (publish : bool) (s : state)
    (a : list Z) :
  multiplexed s msg = true → 3 <= txlength s →
  addr msg = given a → parseInt a 16 = NaN →
  ∃ s' zeros,
    uartWrite msg publish s = Returns tt s'
    ∧ uartSendBuffer s'
      = uartSendBuffer s ++ [([0; 0] ++ payload s msg ++ replicate zeros 0, publish)]
    ∧ (1 ≤ zeros)%nat.
Proof.
  intros Hm Hl Ha Hnan. unfold payload, header. rewrite Hm. cbn [length].
  unfold multiplexed in Hm.
  unfold uartWrite, Buffer_alloc, when, showMsg, modify, get, throw, asciiWrite, substr0.
  unfold mbind, M_bind, mret, M_ret. rewrite Hm, Ha, Hnan.
  destruct (Z.ltb_spec (txlength s) 0) as [?|_]; [lia|].
  set (n := Z.to_nat (txlength s)).
  set (pl := map (fun c => Z.land c 255) (take (n - 2 - 1) (str msg))).
  assert (Hpl : (length pl ≤ n - 3)%nat).
  { unfold pl. rewrite length_map, length_take. lia. }
  exists (set_uartSendBuffer
            (uartSendBuffer s ++ [([0; 0] ++ pl ++ replicate (n - 2 - length pl) 0, publish)])
            (set_shown (shown s ++ debugLine s msg) s)),
         (n - 2 - length pl)%nat.
  split; [|split; [reflexivity|lia]].
  unfold debugLine. rewrite Ha.
  destruct (debugMode s); [|rewrite set_shown_nil].
  all: rewrite writeUInt16LE_NaN by (rewrite length_replicate; lia).
  all: rewrite drop_replicate; cbn [length].
  all: destruct (Nat.ltb_spec (S (S (length (replicate (n - 2) 0)))) 2) as [?|_]; [lia|].
  all: replace (Z.to_nat (txlength s - 3)) with (n - 2 - 1)%nat by lia; fold pl.
  all: change (0 :: 0 :: replicate (n - 2) 0) with ([0; 0] ++ replicate (n - 2) 0).
  all: change 2%nat with (length [0; 0]) at 1.
  all: rewrite writeBytes_spec by (rewrite length_replicate; cbn [length]; lia).
  all: rewrite drop_replicate; reflexivity.
Qed.

Lemma uartWrite_unreadable_address_witness :
  ∃ s' zeros,
    uartWrite {| str := js "hello"; addr := given (js "zz"); internal := false |}
      true (connected true 17) = Returns tt s'
    ∧ uartSendBuffer s' = [([0; 0] ++ js "hello" ++ replicate zeros 0, true)]
    ∧ (1 ≤ zeros)%nat.
Proof.
  apply (uartWrite_unreadable_address
           {| str := js "hello"; addr := given (js "zz"); internal := false |}
           true (connected true 17) (js "zz")); try reflexivity. cbn. lia.
Defined.

(** *** What the module keeps *)

Lemma keeps_refl s : keeps s s.
Proof.
  unfold keeps. repeat apply conj; try reflexivity;
    try (exists []; rewrite app_nil_r; reflexivity).
Qed.

Lemma keeps_trans s1 s2 s3 : keeps s1 s2 → keeps s2 s3 → keeps s1 s3.
Proof.
  intros (A1 & A2 & A3 & A4 & A5 & [t1 A6] & [h1 A7] & [w1 A8] & A9)
         (B1 & B2 & B3 & B4 & B5 & [t2 B6] & [h2 B7] & [w2 B8] & B9).
  unfold keeps. repeat apply conj; try congruence.
  - exists (t1 ++ t2). rewrite B6, A6, app_assoc. reflexivity.
  - exists (h1 ++ h2). rewrite B7, A7, app_assoc. reflexivity.
  - exists (w1 ++ w2). rewrite B8, A8, app_assoc. reflexivity.
  - lia.
Qed.

Ltac rel_done :=
  unfold keeps, sameWritten, parsed;
  cbn [final isServer debugMode txlength heartbeatInterval port responded hbTime
         uartSendBuffer timers finder shown written candidate blacklist nextPortRequests
         set_port set_responded set_uartSendBuffer set_timers set_finder set_shown
         set_written];
  repeat apply conj; try reflexivity; try lia; try (intros; assumption);
  try (left; reflexivity); try (right; reflexivity);
  try (exists []; rewrite app_nil_r; reflexivity);
  try (eexists; reflexivity).

Section Preserving.

Variable R : state → state → Prop.
Hypothesis R_refl : ∀ s, R s s.
Hypothesis R_trans : ∀ s1 s2 s3, R s1 s2 → R s2 s3 → R s1 s3.

Lemma Preserves_ret {A} (a : A) : Preserves R (mret a).
Proof. intros s. apply R_refl. Qed.

Lemma Preserves_throw {A} e : Preserves R (@throw A e).
Proof. intros s. apply R_refl. Qed.

Lemma Preserves_get : Preserves R get.
Proof. intros s. apply R_refl. Qed.

Lemma Preserves_modify f : (∀ s, R s (f s)) → Preserves R (modify f).
Proof. intros H s. apply H. Qed.

Lemma Preserves_bind {A B} (m : M A) (f : A → M B) :
  Preserves R m → (∀ a, Preserves R (f a)) → Preserves R (m ≫= f).
Proof.
  intros Hm Hf s. unfold mbind, M_bind. specialize (Hm s).
  destruct (m s) as [a s'|e s']; cbn [final] in *; [|exact Hm].
  eapply R_trans; [exact Hm|apply Hf].
Qed.

End Preserving.

(** Follow the structure of a computation. *)
Ltac preserving Hrefl Htrans :=
  repeat match goal with
    | |- Preserves _ (if ?c then _ else _) => destruct c
    | |- Preserves _ (match ?x with _ => _ end) => destruct x
    | |- Preserves _ (mret _) => apply (Preserves_ret _ Hrefl)
    | |- Preserves _ (throw _) => apply (Preserves_throw _ Hrefl)
    | |- Preserves _ get => apply (Preserves_get _ Hrefl)
    | |- Preserves _ (modify _) => apply Preserves_modify; intros ?; rel_done
    | |- Preserves _ (_ ≫= _) => apply (Preserves_bind _ Htrans); [|intros ?]
    end.

Lemma sameWritten_refl s : sameWritten s s.
Proof. reflexivity. Qed.

Lemma sameWritten_trans s1 s2 s3 : sameWritten s1 s2 → sameWritten s2 s3 → sameWritten s1 s3.
Proof. unfold sameWritten. congruence. Qed.

Lemma parsed_refl s : parsed s s.
Proof. unfold parsed. repeat apply conj; auto. Qed.

Lemma parsed_trans s1 s2 s3 : parsed s1 s2 → parsed s2 s3 → parsed s1 s3.
Proof.
  intros (A1 & A2 & A3 & A4 & A5 & A6) (B1 & B2 & B3 & B4 & B5 & B6).
  unfold parsed. repeat apply conj; try congruence; auto.
  destruct B6 as [B6|B6]; [rewrite B6; exact A6 | right; exact B6].
Qed.

Ltac keeping := preserving keeps_refl keeps_trans.
Ltac unwritten := preserving sameWritten_refl sameWritten_trans.

Lemma showMsg_keeps lvl text : Preserves keeps (showMsg lvl text).
Proof. unfold showMsg. keeping. Qed.

Lemma uartWrite_keeps msg publish : Preserves keeps (uartWrite msg publish).
Proof.
  unfold uartWrite, Buffer_alloc, writeUInt16LE, asciiWrite, when. keeping.
  all: try apply showMsg_keeps.
Qed.

Lemma uartSender_keeps toStr err : Preserves keeps (uartSender toStr err).
Proof.
  unfold uartSender, writeDone, readUInt16LE, port_write. keeping.
  all: try apply showMsg_keeps.
Qed.

Lemma heartbeat_keeps now : Preserves keeps (heartbeat now).
Proof.
  unfold heartbeat, when. keeping.
  all: first [apply showMsg_keeps | apply uartWrite_keeps].
Qed.

Lemma parseChallenge_keeps toStr json data : Preserves keeps (parseChallenge toStr json data).
Proof.
  unfold parseChallenge, when, clearBlacklist. keeping.
  all: try apply showMsg_keeps.
Qed.

Lemma challengeTimeout_keeps err : Preserves keeps (challengeTimeout err).
Proof.
  unfold challengeTimeout, nextPort, port_close. keeping.
  all: try apply showMsg_keeps.
Qed.

Lemma sendChallenge_keeps : Preserves keeps sendChallenge.
Proof.
  unfold sendChallenge. keeping.
  all: try apply uartWrite_keeps.
Qed.

Lemma act_keeps toStr json a : Preserves keeps (act toStr json a).
Proof.
  destruct a; cbn [act fire].
  - apply uartWrite_keeps.
  - apply uartSender_keeps.
  - apply heartbeat_keeps.
  - apply (Preserves_bind _ keeps_trans);
      [apply parseChallenge_keeps | intros ?; apply (Preserves_ret _ keeps_refl)].
  - apply sendChallenge_keeps.
  - apply challengeTimeout_keeps.
  - apply Preserves_modify. intros s. rel_done.
Qed.

(** X13. Whatever calls are made of the module, in whatever order and
    however each ends: the configuration it reads ([isServer], [debugMode],
    [txlength], [heartbeatInterval]) and the recorded heartbeat time are never
    changed; the timers registered, the lines shown and the buffers handed to
    the port are only added to (no timer is ever cancelled); and the calls of
    [portFinder.nextPort] are only added to. *)
Theorem module_keeps (toStr json : list Z → list Z) (acts : list action) (s : state) :
  keeps s (reach toStr json acts s).
Proof.
  unfold reach. revert s. induction acts as [|a acts IH]; intros s; cbn [fold_left].
  - apply keeps_refl.
  - eapply keeps_trans; [apply act_keeps | apply IH].
Qed.

Lemma showMsg_unwritten lvl text : Preserves sameWritten (showMsg lvl text).
Proof. unfold showMsg. unwritten. Qed.

Lemma uartWrite_unwritten msg publish : Preserves sameWritten (uartWrite msg publish).
Proof.
  unfold uartWrite, Buffer_alloc, writeUInt16LE, asciiWrite, when. unwritten.
  all: try apply showMsg_unwritten.
Qed.

Lemma act_unwritten toStr json a : isDoTick a = false → Preserves sameWritten (act toStr json a).
Proof.
  destruct a; cbn [act fire isDoTick]; intros Ht; try discriminate.
  - apply uartWrite_unwritten.
  - unfold heartbeat, when. unwritten.
    all: first [apply showMsg_unwritten | apply uartWrite_unwritten].
  - unfold parseChallenge, when, clearBlacklist. unwritten.
    all: try apply showMsg_unwritten.
  - unfold sendChallenge. unwritten. all: apply uartWrite_unwritten.
  - unfold challengeTimeout, nextPort, port_close. unwritten.
    all: try apply showMsg_unwritten.
  - apply Preserves_modify. intros s. rel_done.
Qed.

(** X14. Only the sender writes to the port: whatever calls are made of
    uartWrite, heartbeat, parseChallenge, sendChallenge and the challenge
    timeout, and however each ends, as long as the interval timer of
    uartSender does not fire no buffer is handed to the port. *)
Theorem only_sender_writes (toStr json : list Z → list Z) (acts : list action) (s : state) :
  forallb (fun a => negb (isDoTick a)) acts = true →
  written (reach toStr json acts s) = written s.
Proof.
  unfold reach. revert s. induction acts as [|a acts IH]; intros s Hn; cbn [fold_left].
  - reflexivity.
  - cbn [forallb] in Hn. apply andb_true_iff in Hn as [Ha Hn].
    apply negb_true_iff in Ha.
    rewrite (IH _ Hn). apply (act_unwritten toStr json a Ha).
Qed.

Lemma only_sender_writes_witness :
  written (reach (fun b => b) (fun t => t)
             [DoWrite hello true; DoHeartbeat 30000; DoChallenge;
              DoData (254 :: 254 :: 1 :: js "OK"); DoTimeout None]
             (connected true 17)) = [].
Proof.
  exact (only_sender_writes (fun b => b) (fun t => t)
           [DoWrite hello true; DoHeartbeat 30000; DoChallenge;
            DoData (254 :: 254 :: 1 :: js "OK"); DoTimeout None]
           (connected true 17) eq_refl).
Defined.

(** X15. While no port is connected nothing is lost and nothing is sent:
    the ticks of uartSender leave the queue alone, and every message
    enqueued meanwhile is kept at the back of the queue, in order. *)
Theorem disconnected_keeps_queue (toStr : list Z → list Z) (es : list event) (s : state) :
  port s = None →
  Forall (fun e => isPort e = false ∧ eventOk s e) es →
  ∃ s', run toStr es s = Returns tt s'
        ∧ port s' = None
        ∧ written s' = written s
        ∧ map fst (uartSendBuffer s') = map fst (uartSendBuffer s) ++ frames s es.
Proof.
  intros Hp Hok. revert s Hp Hok.
  induction es as [|e es IH]; intros s Hp Hok.
  - exists s. cbn. rewrite app_nil_r. auto.
  - pose proof (Forall_inv Hok) as [Hnp He]. apply Forall_inv_tail in Hok.
    cbn [run]. unfold mbind, M_bind. destruct e as [msg pub|err|p]; cbn [step fire].
    + destruct He as [Hroom Haddr].
      rewrite uartWrite_spec by (apply roomy_wellFormed; assumption).
      destruct (IH (afterWrite s msg pub) Hp Hok) as (s' & Hrun & Hp' & Hw & Hq).
      exists s'. rewrite Hrun. cbn [frames].
      rewrite (frames_ext s (afterWrite s msg pub)) in Hq by reflexivity.
      cbn in Hw, Hq. rewrite map_app in Hq. cbn [map fst] in Hq.
      rewrite <- app_assoc in Hq. auto.
    + rewrite uartSender_idle by (right; exact Hp).
      destruct (IH s Hp Hok) as (s' & Hrun & Hr). exists s'. rewrite Hrun.
      split; [reflexivity|exact Hr].
    + discriminate Hnp.
Qed.

Lemma disconnected_keeps_queue_witness :
  ∃ s', run (fun b => b) [Write hello true; Tick None; Write probe false; Tick None]
          (loaded true false 17 15000) = Returns tt s'
        ∧ port s' = None
        ∧ written s' = []
        ∧ map fst (uartSendBuffer s')
          = [frame (loaded true false 17 15000) hello; frame (loaded true false 17 15000) probe].
Proof.
  apply (disconnected_keeps_queue (fun b => b)
           [Write hello true; Tick None; Write probe false; Tick None]
           (loaded true false 17 15000) eq_refl).
  constructor; [split; [reflexivity|split; [cbn; lia|exact hello_isAddress]]|].
  constructor; [split; [reflexivity|exact I]|].
  constructor; [split; [reflexivity|split; [cbn; lia|exact I]]|].
  constructor; [split; [reflexivity|exact I]|]. constructor.
Defined.

(** *** The challenge-response, from challenge to timeout *)

Ltac parsing := preserving parsed_refl parsed_trans.

Lemma parseChallenge_parsed toStr json data : Preserves parsed (parseChallenge toStr json data).
Proof.
  unfold parseChallenge, when, clearBlacklist, showMsg. parsing.
Qed.

Lemma parseAll_effect toStr json ds : ∀ s,
  ∃ s', parseAll toStr json ds s = Returns tt s'
        ∧ parsed s s'
        ∧ (Exists isAck ds → responded s' = true ∧ blacklist (finder s') = [])
        ∧ (Forall (fun d => ¬ isAck d) ds →
           responded s' = responded s ∧ finder s' = finder s).
Proof.
  induction ds as [|d ds IH]; intros s.
  - exists s. split; [reflexivity|]. split; [apply parsed_refl|].
    split; [intros H; inversion H | auto].
  - cbn [parseAll]. unfold mbind, M_bind.
    destruct (parseChallenge_cases toStr json d s) as (s1 & Hrun & Hcase).
    pose proof (parseChallenge_parsed toStr json d s) as Hp1. rewrite Hrun in *.
    cbn [final] in Hp1.
    destruct (IH s1) as (s' & Hrun' & Hp2 & Hex & Hall).
    exists s'. split; [exact Hrun'|]. split; [eapply parsed_trans; eassumption|]. split.
    + intros H. inversion H as [? ? Hd|? ? Hr]; subst; [|exact (Hex Hr)].
      destruct Hcase as [(_ & Hr1 & Hb1)|(Hn & _)]; [|contradiction].
      destruct Hp2 as (_ & _ & _ & _ & Hresp & Hbl). split; [exact (Hresp Hr1)|].
      destruct Hbl as [Hbl|Hbl]; congruence.
    + intros H. pose proof (Forall_inv H) as Hd. pose proof (Forall_inv_tail H) as Hr.
      cbn beta in Hd. destruct (Hall Hr) as [E1 E2].
      destruct Hcase as [(Ha & _)|(_ & Hr1 & Hf1)]; [contradiction|].
      split; congruence.
Qed.

(** X16. The challenge-response as a whole, with room for the challenge and
    a port present: if one of the inbound frames parsed before the timeout
    matches the acknowledgement pattern, the timeout leaves the port as it is,
    the flag is set, the blacklist has been cleared and [portFinder.nextPort]
    was not called; if none matches, the timeout calls [portFinder.nextPort]
    once and closes the port, and the flag is clear. *)
Theorem handshake_outcome (toStr json : list Z → list Z) (ds : list (list Z))
    (s : state) (p : serialport) :
  1 <= txlength s → port s = Some p →
  (Exists isAck ds → ∀ err,
     ∃ s', handshake toStr json ds err s = Returns tt s'
           ∧ responded s' = true ∧ port s' = Some p
           ∧ blacklist (finder s') = []
           ∧ nextPortRequests (finder s') = nextPortRequests (finder s))
  ∧ (Forall (fun d => ¬ isAck d) ds →
     ∃ s', handshake toStr json ds None s = Returns tt s'
           ∧ responded s' = false ∧ port s' = Some {| isOpen := false |}
           ∧ nextPortRequests (finder s') = S (nextPortRequests (finder s))).
Proof.
  intros Hl Hp.
  assert (Hwf : wellFormed s challenge).
  { unfold wellFormed, multiplexed. cbn [internal challenge negb].
    rewrite andb_false_r. exact Hl. }
  unfold handshake, sendChallenge, mbind, M_bind.
  change (uartWrite _ false s) with (uartWrite challenge false s).
  rewrite (uartWrite_spec challenge false s Hwf). unfold modify.
  set (s1 := set_timers _ _).
  destruct (parseAll_effect toStr json ds s1)
    as (s2 & -> & (Hport & _ & _ & Hnp & _ & _) & Hex & Hall).
  split.
  - intros Hack err. destruct (Hex Hack) as [Hr Hb].
    unfold fire, challengeTimeout, get, mbind, M_bind. rewrite Hr. cbn [negb].
    exists s2. split; [reflexivity|]. rewrite Hr, Hb, Hport, Hnp. auto.
  - intros Hno. destruct (Hall Hno) as [Hr Hf].
    unfold fire, challengeTimeout, get, showMsg, nextPort, port_close, modify, mbind, M_bind,
      mret, M_ret.
    rewrite Hr. cbn [responded s1 set_timers set_responded negb].
    rewrite Hport. cbn [port s1 set_timers set_responded afterWrite set_uartSendBuffer
                          set_shown]. rewrite Hp.
    eexists. split; [reflexivity|].
    cbn [responded port finder blacklist nextPortRequests set_shown set_port set_finder].
    rewrite Hr, Hf. auto.
Qed.

Lemma handshake_outcome_witness :
  (∃ s', handshake (fun b => b) (fun t => t) [js "noise"; 254 :: 254 :: 1 :: js "OK"] None
           (connected false 80) = Returns tt s'
         ∧ responded s' = true ∧ port s' = Some {| isOpen := true |}
         ∧ blacklist (finder s') = []
         ∧ nextPortRequests (finder s') = 0%nat)
  ∧ (∃ s', handshake (fun b => b) (fun t => t) [js "noise"; [254; 254]] None
             (connected false 80) = Returns tt s'
           ∧ responded s' = false ∧ port s' = Some {| isOpen := false |}
           ∧ nextPortRequests (finder s') = 1%nat).
Proof.
  split.
  - apply (proj1 (handshake_outcome (fun b => b) (fun t => t)
                    [js "noise"; 254 :: 254 :: 1 :: js "OK"] (connected false 80)
                    {| isOpen := true |} ltac:(cbn; lia) eq_refl)).
    apply Exists_cons_tl. apply Exists_cons_hd. repeat split.
  - apply (proj2 (handshake_outcome (fun b => b) (fun t => t)
                    [js "noise"; [254; 254]] (connected false 80)
                    {| isOpen := true |} ltac:(cbn; lia) eq_refl)).
    constructor; [intros (H & _); discriminate H|].
    constructor; [intros (_ & _ & H); discriminate H|]. constructor.
Defined.

(** *** Heartbeats in a row *)

Lemma heartbeat_effect now s :
  0 <= txlength s →
  ∃ s' extra,
    heartbeat now s = Returns tt s'
    ∧ shown s' = shown s
                 ++ ((if inWindow (heartbeatInterval s) now (hbTime s)
                      then [suspectLine] else [])
                     ++ extra)
    ∧ (suspectLine ∉ extra)
    ∧ hbTime s' = hbTime s ∧ heartbeatInterval s' = heartbeatInterval s
    ∧ txlength s' = txlength s ∧ isServer s' = isServer s
    ∧ uartSendBuffer s' = uartSendBuffer s ++ [(frame s probe, false)].
Proof.
  intros Hl. rewrite (heartbeat_spec now s Hl).
  set (s1 := set_shown _ s).
  exists (afterWrite s1 probe false), (debugLine s1 probe).
  split; [reflexivity|].
  cbn [afterWrite shown hbTime heartbeatInterval txlength isServer uartSendBuffer
         set_uartSendBuffer set_shown s1].
  rewrite <- app_assoc, (frame_ext s s1) by reflexivity.
  repeat apply conj; try reflexivity. apply suspectLine_not_debug.
Qed.

Lemma suspicions_app l1 l2 : suspicions (l1 ++ l2) = (suspicions l1 + suspicions l2)%nat.
Proof. unfold suspicions. rewrite list.filter_app, length_app. reflexivity. Qed.

Lemma suspicions_none l : suspectLine ∉ l → suspicions l = 0%nat.
Proof.
  unfold suspicions. induction l as [|x l IH]; intros Hn; [reflexivity|].
  rewrite filter_cons. destruct (decide (x = suspectLine)) as [->|Hne].
  - exfalso. apply Hn. left.
  - apply IH. intros H. apply Hn. right. exact H.
Qed.

Lemma heartbeats_effect times : ∀ s,
  0 <= txlength s →
  ∃ s' lines,
    heartbeats times s = Returns tt s'
    ∧ shown s' = shown s ++ lines
    ∧ suspicions lines
      = length (filter (fun now => inWindow (heartbeatInterval s) now (hbTime s) = true) times)
    ∧ hbTime s' = hbTime s
    ∧ uartSendBuffer s' = uartSendBuffer s ++ replicate (length times) (frame s probe, false).
Proof.
  induction times as [|now times IH]; intros s Hl.
  - exists s, []. cbn. rewrite !app_nil_r. repeat apply conj; reflexivity.
  - cbn [heartbeats]. unfold mbind, M_bind.
    destruct (heartbeat_effect now s Hl)
      as (s1 & extra & -> & Hs1 & Hn & Hh & Hi & Ht & Hsrv & Hq).
    destruct (IH s1 ltac:(lia)) as (s' & lines & Hrun & Hs & Hc & Hh' & Hq').
    exists s', ((if inWindow (heartbeatInterval s) now (hbTime s) then [suspectLine] else [])
                ++ extra ++ lines).
    split; [exact Hrun|]. split; [rewrite Hs, Hs1, <- !app_assoc; reflexivity|].
    split; [|split; [congruence|]].
    + rewrite !suspicions_app, (suspicions_none extra Hn), Hc, Hi, Hh.
      rewrite filter_cons.
      destruct (inWindow (heartbeatInterval s) now (hbTime s)) eqn:Ew.
      * rewrite decide_True by reflexivity. reflexivity.
      * rewrite decide_False by discriminate. reflexivity.
    + rewrite Hq', Hq, (frame_ext s s1) by assumption.
      rewrite <- app_assoc. reflexivity.
Qed.

Lemma probes_in_window t interval n :
  0 <= t → 0 < interval <= 2 ^ 50 → t + Z.of_nat n * interval < 2 ^ 53 →
  length (filter (fun now => inWindow interval now (Some t) = true) (probeTimes t interval n))
  = if (2 <=? n)%nat then 1%nat else 0%nat.
Proof.
  intros Ht Hi. unfold probeTimes.
  induction n as [|n IH]; intros Hn; [reflexivity|].
  rewrite seq_S, map_app, list.filter_app, length_app, IH by nia. cbn [map Nat.add].
  rewrite filter_cons, filter_nil.
  pose proof (inWindow_iff interval (t + Z.of_nat (S n) * interval) (Some t)) as Hiff.
  destruct Hiff as [Hto Hfrom]; [nia | intros t' [= <-]; nia | lia |].
  destruct (decide (inWindow interval (t + Z.of_nat (S n) * interval) (Some t) = true))
    as [Hw|Hw].
  - apply Hto in Hw as (t' & [= <-] & H1 & H2).
    assert (n = 1%nat) by nia. subst n. reflexivity.
  - assert (Hne : n ≠ 1%nat).
    { intros ->. apply Hw, Hfrom. exists t. split; [reflexivity|]. lia. }
    cbn [length]. destruct n as [|[|n]]; try congruence; cbn; lia.
Qed.

(** X17. Heartbeats never record a time, so a row of them is judged against
    the same recorded heartbeat: with a heartbeat recorded at [t] and probes
    at [t + interval], [t + 2 interval], ..., all of them times that
    [Date.now()] can return, the "possibly crashed" line is shown exactly
    once, at the second probe, and never again however many probes follow;
    the recorded time stays [t], and the frame of the probe is put at the back
    of the queue once for every call. *)
Theorem heartbeat_row_flags_once (s : state) (t : Z) (n : nat) :
  hbTime s = Some t → 0 <= t → 0 < heartbeatInterval s <= 2 ^ 50 →
  t + Z.of_nat n * heartbeatInterval s < 2 ^ 53 → 0 <= txlength s →
  ∃ s' lines,
    heartbeats (probeTimes t (heartbeatInterval s) n) s = Returns tt s'
    ∧ shown s' = shown s ++ lines
    ∧ suspicions lines = (if (2 <=? n)%nat then 1%nat else 0%nat)
    ∧ hbTime s' = Some t
    ∧ uartSendBuffer s' = uartSendBuffer s ++ replicate n (frame s probe, false).
Proof.
  intros Hh Ht Hi Hn Hl.
  destruct (heartbeats_effect (probeTimes t (heartbeatInterval s) n) s Hl)
    as (s' & lines & Hrun & Hs & Hc & Hh' & Hq).
  exists s', lines. split; [exact Hrun|]. split; [exact Hs|].
  rewrite Hh in Hc. rewrite (probes_in_window t _ n Ht Hi Hn) in Hc.
  split; [exact Hc|]. split; [congruence|].
  rewrite Hq. unfold probeTimes. rewrite length_map, length_seq. reflexivity.
Qed.

Lemma heartbeat_row_flags_once_witness :
  ∃ s' lines,
    heartbeats (probeTimes 0 15000 5) (connected false 80) = Returns tt s'
    ∧ shown s' = lines
    ∧ suspicions lines = 1%nat
    ∧ hbTime s' = Some 0
    ∧ uartSendBuffer s' = replicate 5 (frame (connected false 80) probe, false).
Proof.
  apply (heartbeat_row_flags_once (connected false 80) 0 5 eq_refl).
  - lia.
  - cbn. lia.
  - cbn. lia.
  - cbn. lia.
Defined.

(** *** A message, from uartWrite to the log of uartSender *)

Lemma low_bytes_ascii text :
  isAsciiText text → map (fun c => Z.land c 255) text = text.
Proof.
  induction 1 as [|c text Hc _ IH]; [reflexivity|]. cbn [map]. rewrite IH. f_equal.
  change 255 with (Z.ones 8). rewrite Z.land_ones by lia. apply Z.mod_small. lia.
Qed.

Lemma removeNul_padded text k :
  isAsciiText text → removeNul (text ++ replicate k 0) = text.
Proof.
  intros Ht. unfold removeNul. rewrite list.filter_app.
  replace (filter (fun c => c ≠ 0) (replicate k 0)) with (@nil Z).
  - rewrite app_nil_r. induction Ht as [|c text Hc _ IH]; [reflexivity|].
    rewrite filter_cons_True by lia. rewrite IH. reflexivity.
  - induction k as [|k IH]; [reflexivity|]. cbn [replicate].
    rewrite filter_cons_False by (intros H; apply H; reflexivity). exact IH.
Qed.

Lemma uartSender_direct (toStr : list Z → list Z) s txBuf publish rest p :
  isServer s = false → uartSendBuffer s = (txBuf, publish) :: rest → port s = Some p →
  uartSender toStr None s
  = Returns tt
      (set_shown (shown s ++ [(js "info", js "Sent '" ++ removeNul (toStr txBuf)
                                           ++ js "' to connected SensorTag.")])
         (set_written (written s ++ [txBuf]) (set_uartSendBuffer rest s))).
Proof.
  intros Hsrv Hq Hp. unfold uartSender, get, mbind, M_bind. rewrite Hq, Hp, Hsrv.
  unfold modify, port_write, writeDone, get, showMsg, modify, mbind, M_bind, mret, M_ret.
  cbn. rewrite Hsrv. reflexivity.
Qed.

(** X18. Outside server mode, a text of 7-bit characters without NUL that
    fits the transmit buffer comes through whole: uartWrite followed by a
    tick of uartSender hands the port the text padded with zeros to
    [txlength] bytes, and the line shown quotes the text as it was given. *)
Theorem sent_text_round_trip (toStr : list Z → list Z) (s : state) (p : serialport)
    (msg : message) (publish : bool) :
  decodesAscii toStr →
  isServer s = false → port s = Some p → uartSendBuffer s = [] →
  isAsciiText (str msg) → Z.of_nat (length (str msg)) < txlength s →
  ∃ s',
    (uartWrite msg publish;; uartSender toStr None) s = Returns tt s'
    ∧ written s'
      = written s ++ [str msg ++ replicate (Z.to_nat (txlength s) - length (str msg)) 0]
    ∧ shown s'
      = shown s ++ debugLine s msg
        ++ [(js "info", js "Sent '" ++ str msg ++ js "' to connected SensorTag.")]
    ∧ uartSendBuffer s' = [].
Proof.
  intros Hdec Hsrv Hp Hq Htext Hfit.
  assert (Hwf : wellFormed s msg).
  { unfold wellFormed, multiplexed. rewrite Hsrv. cbn [andb]. lia. }
  assert (Hframe : frame s msg
                   = str msg ++ replicate (Z.to_nat (txlength s) - length (str msg)) 0).
  { unfold frame, payload, header, multiplexed. rewrite Hsrv. cbn [andb app length].
    rewrite take_ge by lia. rewrite (low_bytes_ascii _ Htext), Nat.sub_0_r. reflexivity. }
  assert (Hbytes : Forall (fun c => 0 <= c < 128) (frame s msg)).
  { rewrite Hframe. apply Forall_app. split.
    - eapply list.Forall_impl; [exact Htext|]. cbn. intros; lia.
    - apply Forall_replicate. lia. }
  unfold mbind at 1, M_bind at 1. rewrite (uartWrite_spec msg publish s Hwf).
  rewrite (uartSender_direct toStr (afterWrite s msg publish) (frame s msg) publish [] p);
    [| exact Hsrv | cbn; rewrite Hq; reflexivity | exact Hp].
  eexists. split; [reflexivity|].
  cbn [afterWrite written shown uartSendBuffer set_shown set_written set_uartSendBuffer].
  rewrite (Hdec _ Hbytes), Hframe, (removeNul_padded _ _ Htext), <- app_assoc. auto.
Qed.

Lemma sent_text_round_trip_witness :
  ∃ s',
    (uartWrite hello true;; uartSender (fun b => b) None) (connected false 17) = Returns tt s'
    ∧ written s' = [js "hello" ++ replicate 12 0]
    ∧ shown s' = [(js "info", js "Sent 'hello' to connected SensorTag.")]
    ∧ uartSendBuffer s' = [].
Proof.
  apply (sent_text_round_trip (fun b => b) (connected false 17) {| isOpen := true |}
           hello true).
  - intros b _. reflexivity.
  - reflexivity.
  - reflexivity.
  - reflexivity.
  - unfold isAsciiText. cbn. repeat constructor; lia.
  - cbn. lia.
Defined.

Lemma uartSender_server (toStr : list Z → list Z) s b0 b1 body publish rest p :
  isServer s = true → uartSendBuffer s = (b0 :: b1 :: body, publish) :: rest →
  port s = Some p →
  uartSender toStr None s
  = Returns tt
      (set_shown
         (shown s
          ++ (if publish
              then if isOpen p
                   then [(js "info", js "Sent '" ++ removeNul (toStr body) ++ js "' to 0x"
                                     ++ addressText (b0 + b1 * 256))]
                   else [(js "error", js "Sending aborted. SensorTag isn't connected.")]
              else []))
         (set_written (written s ++ [b0 :: b1 :: body]) (set_uartSendBuffer rest s))).
Proof.
  intros Hsrv Hq Hp. unfold uartSender, get, mbind, M_bind. rewrite Hq, Hp, Hsrv.
  unfold modify, port_write, writeDone, get, showMsg, modify, mbind, M_bind, mret, M_ret.
  cbn [readUInt16LE]. unfold mret, M_ret. cbn. rewrite Hsrv, Hp. cbn.
  destruct publish, (isOpen p); cbn; try reflexivity.
  all: rewrite app_nil_r; reflexivity.
Qed.

(** X19. In server mode a published message to a device comes through with
    its address: uartWrite followed by a tick of uartSender hands the port
    the two address bytes, the text and the zero padding, and, the port
    being open, the line shown quotes the text and names the address in the
    sender's form of it, [addressText]; with the port closed the line is the
    error that sending was aborted, and the frame is written all the same. *)
Theorem sent_frame_round_trip (toStr : list Z → list Z) (s : state) (p : serialport)
    (msg : message) :
  decodesAscii toStr →
  multiplexed s msg = true → wellFormed s msg →
  port s = Some p → uartSendBuffer s = [] →
  isAsciiText (str msg) → Z.of_nat (length (str msg)) + 2 < txlength s →
  ∃ s',
    (uartWrite msg true;; uartSender toStr None) s = Returns tt s'
    ∧ written s'
      = written s
        ++ [[addressValue (addr msg) mod 256; addressValue (addr msg) / 256]
            ++ str msg ++ replicate (Z.to_nat (txlength s) - 2 - length (str msg)) 0]
    ∧ shown s'
      = shown s ++ debugLine s msg
        ++ [if isOpen p
            then (js "info", js "Sent '" ++ str msg ++ js "' to 0x"
                             ++ addressText (addressValue (addr msg)))
            else (js "error", js "Sending aborted. SensorTag isn't connected.")]
    ∧ uartSendBuffer s' = [].
Proof.
  intros Hdec Hm Hwf Hp Hq Htext Hfit.
  assert (Hsrv : isServer s = true).
  { unfold multiplexed in Hm. destruct (isServer s); [reflexivity|discriminate]. }
  set (body := str msg ++ replicate (Z.to_nat (txlength s) - 2 - length (str msg)) 0).
  assert (Hframe : frame s msg
                   = addressValue (addr msg) mod 256 :: addressValue (addr msg) / 256 :: body).
  { unfold frame, payload, header. rewrite Hm. cbn [app length].
    rewrite take_ge by lia. rewrite (low_bytes_ascii _ Htext). reflexivity. }
  assert (Hbytes : Forall (fun c => 0 <= c < 128) body).
  { apply Forall_app. split.
    - eapply list.Forall_impl; [exact Htext|]. cbn. intros; lia.
    - apply Forall_replicate. lia. }
  unfold mbind at 1, M_bind at 1. rewrite (uartWrite_spec msg true s Hwf).
  rewrite (uartSender_server toStr (afterWrite s msg true)
             (addressValue (addr msg) mod 256) (addressValue (addr msg) / 256)
             body true [] p);
    [| exact Hsrv | cbn; rewrite Hq, Hframe; reflexivity | exact Hp].
  eexists. split; [reflexivity|].
  cbn [afterWrite written shown uartSendBuffer set_shown set_written set_uartSendBuffer].
  rewrite (Hdec _ Hbytes). clear Hbytes. subst body.
  rewrite (removeNul_padded _ _ Htext).
  replace (addressValue (addr msg) mod 256 + addressValue (addr msg) / 256 * 256)
    with (addressValue (addr msg))
    by (pose proof (Z.div_mod (addressValue (addr msg)) 256 ltac:(lia)); lia).
  rewrite <- app_assoc. repeat apply conj; try reflexivity.
  destruct (isOpen p); reflexivity.
Qed.

Lemma sent_frame_round_trip_witness :
  ∃ s',
    (uartWrite hello true;; uartSender (fun b => b) None) (connected true 17) = Returns tt s'
    ∧ written s' = [[162; 1] ++ js "hello" ++ replicate 10 0]
    ∧ shown s' = [(js "info", js "Sent 'hello' to 0x01a2")]
    ∧ uartSendBuffer s' = [].
Proof.
  apply (sent_frame_round_trip (fun b => b) (connected true 17) {| isOpen := true |} hello).
  - intros b _. reflexivity.
  - reflexivity.
  - split; [cbn; lia | exact hello_isAddress].
  - reflexivity.
  - reflexivity.
  - unfold isAsciiText. cbn. repeat constructor; lia.
  - cbn. lia.
Defined.
